(** * protocolpro: the header-diagram generator, embedded and verified

    A shallow embedding of [src/protocolpro.py]: the [Protocol] class with
    its spec parser ([parse_spec]), its layout pass ([_process_field_list])
    and its renderer ([__str__] with [_get_top_numbers], [_get_horizontal]
    and [_get_separator]).

    Conventions of the embedding.
    - A Python [int] is a [Z].
    - A Python [str] is a [string] holding one character per [ascii]; the
      characters covered are the code points below 256.  The eleven box
      glyphs of the Unicode mode are fixed attributes which the code only
      concatenates; they are held as their UTF-8 bytes.
    - A field of [field_list] is a Python dict with the keys ['text'] and
      ['len'], to which the layout pass adds ['MF'], ['line'], ['start'] and
      ['end']: a record whose four later keys are optional.
    - [self.field_list] is a mutable list of such dicts which the layout
      pass updates in place: the pass is a function from the object to a
      result and the object afterwards.
    - A raised exception is the [Raise] outcome; a loop that has not
      finished within its fuel is the [Timeout] outcome. *)

From Stdlib Require Import ZArith List String Ascii Lia Bool DecimalString.
From stdpp Require Import base list strings.

Open Scope Z_scope.

(** stdpp keeps [simpl] from unfolding the concatenation of strings; the
    proofs below compute with it. *)
#[local] Arguments String.append !s1 s2.

(** ** Outcomes: a value, a raised exception, or no answer within the fuel *)

Inductive exn : Type :=
  | ProtocolException (errmsg : string)
  | AssertionError
  | IndexError
  | KeyError
  | ZeroDivisionError.

Inductive outcome (A : Type) : Type :=
  | Ret (a : A)
  | Raise (e : exn)
  | Timeout.

Arguments Ret {A} a.
Arguments Raise {A} e.
Arguments Timeout {A}.

Definition bind {A B : Type} (m : outcome A) (k : A -> outcome B) : outcome B :=
  match m with
  | Ret a => k a
  | Raise e => Raise e
  | Timeout => Timeout
  end.

Notation "'do' x <- m ; k" := (bind m (fun x => k))
  (at level 10, x name, m at level 100, k at level 200).
Notation "'do' ' p <- m ; k" := (bind m (fun x => match x with p => k end))
  (at level 10, p pattern, m at level 100, k at level 200).

(** The monadic left fold that stands for a [for] loop whose body may raise. *)
Fixpoint foldM {A S : Type} (body : S -> A -> outcome S) (l : list A) (s : S)
  : outcome S :=
  match l with
  | [] => Ret s
  | x :: l' => do s' <- body s x; foldM body l' s'
  end.

Definition is_Ret {A : Type} (m : outcome A) : bool :=
  match m with Ret _ => true | _ => false end.


(** ** The Python builtins the program calls *)

Module Py.

(** [len(s)] *)
Definition len (s : string) : Z := Z.of_nat (String.length s).

(** [s.split(sep)] for a separator of one character. *)
Fixpoint split (sep : ascii) (s : string) : list string :=
  match s with
  | EmptyString => [EmptyString]
  | String c s' =>
      if Ascii.eqb c sep then EmptyString :: split sep s'
      else match split sep s' with
           | w :: ws => String c w :: ws
           | [] => [String c EmptyString]
           end
  end.

(** [s.count(c)] for a pattern of one character. *)
Fixpoint count (c : ascii) (s : string) : Z :=
  match s with
  | EmptyString => 0
  | String a s' => (if Ascii.eqb a c then 1 else 0) + count c s'
  end.

(** [c in s] for a pattern of one character. *)
Fixpoint contains (c : ascii) (s : string) : bool :=
  match s with
  | EmptyString => false
  | String a s' => Ascii.eqb a c || contains c s'
  end.

(** [x in [s1, ..., sn]] *)
Definition mem (x : string) (l : list string) : bool :=
  existsb (String.eqb x) l.

(** [s.lower()], on the code points below 256: the letters [A-Z] and the
    accented capitals U+00C0..U+00DE (the sign U+00D7 apart) move up by 32. *)
Definition lower_char (c : ascii) : ascii :=
  let n := nat_of_ascii c in
  if ((65 <=? n) && (n <=? 90))%nat then ascii_of_nat (n + 32)
  else if ((192 <=? n) && (n <=? 222) && negb (n =? 215))%nat
       then ascii_of_nat (n + 32)
  else c.

Fixpoint lower (s : string) : string :=
  match s with
  | EmptyString => EmptyString
  | String c s' => String (lower_char c) (lower s')
  end.

(** White space as [int()] and [str.strip()] see it, below 256. *)
Definition isspace (c : ascii) : bool :=
  let n := nat_of_ascii c in
  (((9 <=? n) && (n <=? 13)) || ((28 <=? n) && (n <=? 32))
   || (n =? 133) || (n =? 160))%nat.

Fixpoint lstrip (s : string) : string :=
  match s with
  | EmptyString => EmptyString
  | String c s' => if isspace c then lstrip s' else s
  end.

Fixpoint rstrip (s : string) : string :=
  match s with
  | EmptyString => EmptyString
  | String c s' =>
      match rstrip s' with
      | EmptyString => if isspace c then EmptyString else String c EmptyString
      | r => String c r
      end
  end.

Definition strip (s : string) : string := rstrip (lstrip s).

Definition digit_of (c : ascii) : option Z :=
  let n := nat_of_ascii c in
  if ((48 <=? n) && (n <=? 57))%nat then Some (Z.of_nat n - 48) else None.

(** The digits of a decimal literal: single underscores are allowed
    between digits only.  [after_digit] tells whether the character before
    was a digit. *)
Fixpoint digits (acc : Z) (after_digit : bool) (s : string) : option Z :=
  match s with
  | EmptyString => if after_digit then Some acc else None
  | String c s' =>
      if Ascii.eqb c "_" then
        if after_digit then digits acc false s' else None
      else
        match digit_of c with
        | Some d => digits (10 * acc + d) true s'
        | None => None
        end
  end.

(** [int(s)] in base 10; [None] is the [ValueError].  White space around
    the literal is dropped, one sign is allowed.  (The interpreter's
    configurable cap on the number of digits is not part of the model.) *)
Definition int (s : string) : option Z :=
  match strip s with
  | String "+" r => digits 0 false r
  | String "-" r => option_map Z.opp (digits 0 false r)
  | r => digits 0 false r
  end.

(** [str(n)] for an [int]. *)
Definition str (n : Z) : string := NilZero.string_of_int (Z.to_int n).

(** [s * n]: [n] copies of [s], none when [n <= 0]. *)
Fixpoint repeat_nat (s : string) (n : nat) : string :=
  match n with
  | O => EmptyString
  | S n' => s +:+ repeat_nat s n'
  end.

Definition mul (s : string) (n : Z) : string := repeat_nat s (Z.to_nat n).

(** [str.center(s, width)] with the default fill character, as CPython
    computes it: [left = marg/2 + (marg & width & 1)]. *)
Definition center (s : string) (width : Z) : string :=
  if len s >=? width then s
  else
    let marg := width - len s in
    let left := marg / 2 + Z.land (Z.land marg width) 1 in
    mul " " left +:+ s +:+ mul " " (marg - left).

(** ["{:<w}".format(s)] and ["{:>w}".format(s)] for a string [s]. *)
Definition ljust (s : string) (width : Z) : string :=
  s +:+ mul " " (width - len s).

Definition rjust (s : string) (width : Z) : string :=
  mul " " (width - len s) +:+ s.

(** [sep.join(l)] *)
Fixpoint join (sep : string) (l : list string) : string :=
  match l with
  | [] => EmptyString
  | [x] => x
  | x :: l' => x +:+ sep +:+ join sep l'
  end.

(** [s[0:stop]]: a negative [stop] counts from the end. *)
Definition slice0 (s : string) (stop : Z) : string :=
  let stop := if stop <? 0 then Z.max (len s + stop) 0 else stop in
  String.substring 0 (Z.to_nat stop) s.

(** [range(0, n)] *)
Definition range (n : Z) : list Z := map Z.of_nat (seq 0 (Z.to_nat n)).

(** [l[i] = v] on a list: a negative index counts from the end, an index
    out of range raises. *)
Definition setitem {A : Type} (l : list A) (i : Z) (v : A) : outcome (list A) :=
  let n := Z.of_nat (length l) in
  let j := if i <? 0 then i + n else i in
  if (j <? 0) || (j >=? n) then Raise IndexError
  else Ret (<[Z.to_nat j := v]> l).

(** [d[key]] for a key that the dict may lack. *)
Definition getitem {A : Type} (o : option A) : outcome A :=
  match o with
  | Some v => Ret v
  | None => Raise KeyError
  end.

(** [l[i]] for an index [i >= 0]. *)
Definition index {A : Type} (l : list A) (i : nat) : outcome A :=
  match l !! i with
  | Some v => Ret v
  | None => Raise IndexError
  end.

End Py.

(** ** The class [Protocol] *)

(** A field dict.  ['text'] and ['len'] come from the parser; ['MF'],
    ['line'], ['start'] and ['end'] are absent until the layout pass stores
    them. *)
Record field : Type := mkField {
  text : string;
  len : Z;
  MF : option bool;
  line : option Z;
  start : option Z;
  end_ : option Z
}.

(** The instance attributes that are reassigned after construction.  The
    Unicode glyphs [u_*] are assigned once by the constructor and never
    again: they are the constants below. *)
Record Protocol : Type := mkProtocol {
  hdr_char_start : string;
  hdr_char_end : string;
  hdr_char_fill_odd : string;
  hdr_char_fill_even : string;
  hdr_char_sep : string;
  bits_per_line : Z;
  do_print_top_tens : bool;
  do_print_top_units : bool;
  do_ascii : bool;
  do_unicode : bool;
  field_list : list field
}.

Definition u_top_hdr_char_start : string := "┌".
Definition u_top_hdr_char_end : string := "┐".
Definition u_bottom_hdr_char_start : string := "└".
Definition u_bottom_hdr_char_end : string := "┘".
Definition u_hdr_char_start : string := "├".
Definition u_hdr_char_end : string := "┤".
Definition u_hdr_char_fill : string := "─".
Definition u_hdr_char_sep : string := "│".
Definition u_hdr_connector_down : string := "┬".
Definition u_hdr_connector_up : string := "┴".
Definition u_hdr_connector_cross : string := "┼".

(** The object as [__init__] leaves it just before it calls [parse_spec]. *)
Definition init : Protocol := {|
  hdr_char_start := "+";
  hdr_char_end := "+";
  hdr_char_fill_odd := "+";
  hdr_char_fill_even := "-";
  hdr_char_sep := "|";
  bits_per_line := 32;
  do_print_top_tens := true;
  do_print_top_units := true;
  do_ascii := true;
  do_unicode := false;
  field_list := []
|}.

(** Attribute assignments. *)
Definition set_hdr_char_start (v : string) (self : Protocol) : Protocol :=
  mkProtocol v (hdr_char_end self) (hdr_char_fill_odd self)
    (hdr_char_fill_even self) (hdr_char_sep self) (bits_per_line self)
    (do_print_top_tens self) (do_print_top_units self) (do_ascii self)
    (do_unicode self) (field_list self).

Definition set_hdr_char_end (v : string) (self : Protocol) : Protocol :=
  mkProtocol (hdr_char_start self) v (hdr_char_fill_odd self)
    (hdr_char_fill_even self) (hdr_char_sep self) (bits_per_line self)
    (do_print_top_tens self) (do_print_top_units self) (do_ascii self)
    (do_unicode self) (field_list self).

Definition set_hdr_char_fill_odd (v : string) (self : Protocol) : Protocol :=
  mkProtocol (hdr_char_start self) (hdr_char_end self) v
    (hdr_char_fill_even self) (hdr_char_sep self) (bits_per_line self)
    (do_print_top_tens self) (do_print_top_units self) (do_ascii self)
    (do_unicode self) (field_list self).

Definition set_hdr_char_fill_even (v : string) (self : Protocol) : Protocol :=
  mkProtocol (hdr_char_start self) (hdr_char_end self) (hdr_char_fill_odd self)
    v (hdr_char_sep self) (bits_per_line self)
    (do_print_top_tens self) (do_print_top_units self) (do_ascii self)
    (do_unicode self) (field_list self).

Definition set_hdr_char_sep (v : string) (self : Protocol) : Protocol :=
  mkProtocol (hdr_char_start self) (hdr_char_end self) (hdr_char_fill_odd self)
    (hdr_char_fill_even self) v (bits_per_line self)
    (do_print_top_tens self) (do_print_top_units self) (do_ascii self)
    (do_unicode self) (field_list self).

Definition set_bits_per_line (v : Z) (self : Protocol) : Protocol :=
  mkProtocol (hdr_char_start self) (hdr_char_end self) (hdr_char_fill_odd self)
    (hdr_char_fill_even self) (hdr_char_sep self) v
    (do_print_top_tens self) (do_print_top_units self) (do_ascii self)
    (do_unicode self) (field_list self).

(** [self.do_print_top_tens = v; self.do_print_top_units = v] *)
Definition set_do_print_top (v : bool) (self : Protocol) : Protocol :=
  mkProtocol (hdr_char_start self) (hdr_char_end self) (hdr_char_fill_odd self)
    (hdr_char_fill_even self) (hdr_char_sep self) (bits_per_line self)
    v v (do_ascii self) (do_unicode self) (field_list self).


Definition set_field_list (v : list field) (self : Protocol) : Protocol :=
  mkProtocol (hdr_char_start self) (hdr_char_end self) (hdr_char_fill_odd self)
    (hdr_char_fill_even self) (hdr_char_sep self) (bits_per_line self)
    (do_print_top_tens self) (do_print_top_units self) (do_ascii self)
    (do_unicode self) v.

(** *** [parse_spec] *)

(** The messages of the exceptions [parse_spec] raises. *)
Definition err_separator : exn :=
  ProtocolException
    "FATAL: Character '?' may only be used as an option separator.".

Definition err_field_length (spec : string) : exn :=
  ProtocolException
    ("FATAL: Fields must be at least one bit long (" +:+ spec +:+ ")").

Definition err_field_list (spec : string) : exn :=
  ProtocolException
    ("FATAL: Invalid field_list specification (" +:+ spec +:+ ")").

Definition err_bits_option (value : string) : exn :=
  ProtocolException
    ("FATAL: Invalid value for 'bits' option (" +:+ value +:+ ")").

Definition err_numbers_option (value : string) : exn :=
  ProtocolException
    ("FATAL: Invalid value for 'numbers' option (" +:+ value +:+ ")").

Definition err_char_option (var value : string) : exn :=
  ProtocolException
    ("FATAL: Invalid value for '" +:+ var +:+ "' option (" +:+ value +:+ ")").

Definition err_options (opt : string) : exn :=
  ProtocolException
    ("FATAL: Invalid options specification (" +:+ opt +:+ ")").

(** The field dict the parser builds: [{"text": text, "len": bits}]. *)
Definition new_field (text : string) (bits : Z) : field :=
  mkField text bits None None None None.

(** The body of the loop over the field tokens.  Unpacking
    [item.split(":")] into two names and [int(bits)] raise a [ValueError]
    which the bare [except] turns into the field-list message; the
    exception of the length test is re-raised as it is. *)
Definition parse_item (spec : string) (self : Protocol) (item : string)
  : outcome Protocol :=
  match Py.split ":" item with
  | [text; bits] =>
      match Py.int bits with
      | Some bits =>
          if bits <=? 0 then Raise (err_field_length spec)
          else Ret (set_field_list (field_list self ++ [new_field text bits]) self)
      | None => Raise (err_field_list spec)
      end
  | _ => Raise (err_field_list spec)
  end.

(** The body of the loop over the options. *)
Definition parse_opt (self : Protocol) (opt : string) : outcome Protocol :=
  match Py.split "=" opt with
  | [var; value] =>
      if (Py.lower var =? "bits")%string then
        match Py.int value with
        | Some b =>
            if b <=? 0 then Raise (err_bits_option value)
            else Ret (set_bits_per_line b self)
        | None => Raise (err_options opt)
        end
      else if (Py.lower var =? "numbers")%string then
        if Py.mem (Py.lower value) ["0"; "n"; "no"; "none"; "false"]%string
        then Ret (set_do_print_top false self)
        else if Py.mem (Py.lower value) ["1"; "y"; "yes"; "none"; "true"]%string
        then Ret (set_do_print_top true self)
        else Raise (err_numbers_option value)
      else if Py.mem (Py.lower var)
                ["oddchar"; "evenchar"; "startchar"; "endchar"; "sepchar"]%string
      then
        if (Py.len value >? 1) || (Py.len value <=? 0)
        then Raise (err_char_option var value)
        else if (Py.lower var =? "oddchar")%string
             then Ret (set_hdr_char_fill_odd value self)
        else if (Py.lower var =? "evenchar")%string
             then Ret (set_hdr_char_fill_even value self)
        else if (Py.lower var =? "startchar")%string
             then Ret (set_hdr_char_start value self)
        else if (Py.lower var =? "endchar")%string
             then Ret (set_hdr_char_end value self)
        else if (Py.lower var =? "sepchar")%string
             then Ret (set_hdr_char_sep value self)
        else Ret self
      else Ret self
  | _ => Raise (err_options opt)
  end.

(** The two halves of the spec: [(fields, opts)], with [opts = None] when
    there is no ["?"], and the exception for a second ["?"]. *)
Definition split_spec (spec : string) : outcome (string * option string) :=
  if Py.contains "?" spec then
    match Py.split "?" spec with
    | fields :: opts :: _ =>
        if Py.count "?" spec >? 1 then Raise err_separator
        else Ret (fields, Some opts)
    | _ => Raise IndexError
    end
  else Ret (spec, None).

Definition parse_spec (self : Protocol) (spec : string) : outcome Protocol :=
  do '(fields, opts) <- split_spec spec;
  do self <- foldM (parse_item spec) (Py.split "," fields) self;
  match opts with
  | Some opts => foldM parse_opt (Py.split "," opts) self
  | None => Ret self
  end.

(** [Protocol(spec)] *)
Definition new (spec : string) : outcome Protocol := parse_spec init spec.


(** *** [_process_field_list] *)

(** Assignments to the keys of a field dict. *)
Definition set_text (v : string) (f : field) : field :=
  mkField v (len f) (MF f) (line f) (start f) (end_ f).
Definition set_len (v : Z) (f : field) : field :=
  mkField (text f) v (MF f) (line f) (start f) (end_ f).
Definition set_MF (v : bool) (f : field) : field :=
  mkField (text f) (len f) (Some v) (line f) (start f) (end_ f).
Definition set_line (v : Z) (f : field) : field :=
  mkField (text f) (len f) (MF f) (Some v) (start f) (end_ f).
Definition set_start (v : Z) (f : field) : field :=
  mkField (text f) (len f) (MF f) (line f) (Some v) (end_ f).
Definition set_end (v : Z) (f : field) : field :=
  mkField (text f) (len f) (MF f) (line f) (start f) (Some v).

(** The variables of the layout loop.  [fields] is [self.field_list]: the
    loop binds [field] to the dict at index [i] and assigns to its keys, so
    the list the object holds changes with it. *)
Record layout : Type := mkLayout {
  fields : list field;
  new_fields : list field;
  bits_in_line : Z;
  i : nat;
  text_line : Z
}.

(** The three branches of a turn of the [while] loop.  [field] is the dict
    at index [i] after ['MF'] has been set to [False].

    Enough space on this line: the field is kept as it is. *)
Definition keep_field (bits_per_line : Z) (st : layout) (field : field) : layout :=
  let field := set_start (bits_in_line st) (set_line (text_line st) field) in
  let bits := bits_in_line st + len field in
  let field := set_end (bits - 1) field in
  let full := bits =? bits_per_line in
  {| fields := <[i st := field]> (fields st);
     new_fields := new_fields st ++ [field];
     bits_in_line := if full then 0 else bits;
     i := S (i st);
     text_line := if full then text_line st + 1 else text_line st |}.

(** Case 1: the field is aligned and its length is a multiple of the line
    length. *)
Definition block_field (bits_per_line : Z) (st : layout) (field : field) : layout :=
  let field :=
    set_line (text_line st) (set_end (bits_per_line - 1) (set_start 0 field)) in
  {| fields := <[i st := field]> (fields st);
     new_fields := new_fields st ++ [field];
     bits_in_line := bits_in_line st;
     i := S (i st);
     text_line := text_line st + 1 |}.

(** Case 2: the field is split.  A new dict takes what is left of the line;
    the field keeps the rest and stays the one the loop is at.  The text
    goes to the line that has more space for it. *)
Definition split_field (bits_per_line : Z) (st : layout) (field : field)
  (field_text : string) : layout :=
  let available_in_line := bits_per_line - bits_in_line st in
  let here := available_in_line >=? len field - available_in_line in
  let new_field :=
    mkField (if here then field_text else "") available_in_line (Some true)
      (Some (text_line st)) (Some (bits_in_line st)) (Some (bits_per_line - 1)) in
  let field :=
    set_MF false
      (set_len (len field - available_in_line)
         (set_text (if here then "" else field_text) field)) in
  {| fields := <[i st := field]> (fields st);
     new_fields := new_fields st ++ [new_field];
     bits_in_line := 0;
     i := i st;
     text_line := text_line st + 1 |}.

(** [bits_in_line == 0 and field['len'] % self.bits_per_line == 0] *)
Definition aligned_multiple (bits_per_line : Z) (st : layout) (field : field)
  : outcome bool :=
  if bits_in_line st =? 0 then
    if bits_per_line =? 0 then Raise ZeroDivisionError
    else Ret (len field mod bits_per_line =? 0)
  else Ret false.

(** One turn of the [while] loop, for [field = self.field_list[i]]. *)
Definition layout_step (bits_per_line : Z) (st : layout) (field : field)
  : outcome layout :=
  let field_text := text field in
  let field := set_MF false field in
  let available_in_line := bits_per_line - bits_in_line st in
  if available_in_line >=? len field then Ret (keep_field bits_per_line st field)
  else
    do aligned <- aligned_multiple bits_per_line st field;
    if (aligned : bool) then Ret (block_field bits_per_line st field)
    else Ret (split_field bits_per_line st field field_text).

(** The [while i < len(self.field_list)] loop. *)
Fixpoint layout_loop (fuel : nat) (bits_per_line : Z) (st : layout)
  {struct fuel} : outcome layout :=
  match fields st !! i st with
  | None => Ret st
  | Some field =>
      match fuel with
      | O => Timeout
      | S fuel' =>
          do st' <- layout_step bits_per_line st field;
          layout_loop fuel' bits_per_line st'
      end
  end.

Definition layout_init (self : Protocol) : layout :=
  {| fields := field_list self; new_fields := []; bits_in_line := 0;
     i := 0%nat; text_line := 1 |}.

(** The method: the list it returns, and the object as it leaves it. *)
Definition _process_field_list (fuel : nat) (self : Protocol)
  : outcome (list field * Protocol) :=
  do st <- layout_loop fuel (bits_per_line self) (layout_init self);
  Ret (new_fields st, set_field_list (fields st) self).

(** The number of turns that is always enough for a list of fields of
    positive length: every turn either leaves a field behind or takes at
    least one bit off the field it is at. *)
Definition layout_fuel (fl : list field) : nat :=
  fold_right (fun f n => (S (Z.to_nat (len f)) + n)%nat) 0%nat fl.

(** *** [_get_top_numbers] *)

Definition _get_top_numbers (self : Protocol) : option string :=
  let bpl := bits_per_line self in
  let line0 :=
    if do_print_top_tens self then
      " " +:+
      fold_left (fun acc i =>
                   if (i mod 8 =? 0) && (i + 8 >=? bpl)
                   then acc +:+ Py.ljust (Py.str i) 8 +:+ Py.rjust (Py.str (bpl - 1)) 8
                   else if i mod 8 =? 0
                   then acc +:+ Py.ljust (Py.str i) 16
                   else acc)
        (Py.range bpl) ""
      +:+ String "010" ""
    else "" in
  let line1 :=
    if do_print_top_units self then
      fold_left (fun acc i => acc +:+ " " +:+ Py.str (i mod 8)) (Py.range bpl) ""
    else "" in
  let result := line0 +:+ line1 in
  if Py.len result >? 0 then Some result else None.

(** *** [_get_horizontal] *)

(** The loop over [fields] that places the down and up connectors; the
    state is [(chars, start_above, start_below)], the two sets as lists. *)
Definition connect_step (textline : Z) (st : list string * list Z * list Z)
  (field : field) : outcome (list string * list Z * list Z) :=
  let '(chars, start_above, start_below) := st in
  do fstart <- Py.getitem (start field);
  if fstart =? 0 then Ret st
  else
    do fline <- Py.getitem (line field);
    do '(chars, start_above) <-
      (if fline =? textline then
         let index := 2 * fstart - 1 in
         if index <? Z.of_nat (length chars) then
           do chars <- Py.setitem chars index u_hdr_connector_down;
           Ret (chars, fstart :: start_above)
         else Ret (chars, start_above)
       else Ret (chars, start_above));
    if fline =? textline - 1 then
      let index := 2 * fstart - 1 in
      if index <? Z.of_nat (length chars) then
        do chars <- Py.setitem chars index u_hdr_connector_up;
        Ret (chars, start_above, fstart :: start_below)
      else Ret (chars, start_above, start_below)
    else Ret (chars, start_above, start_below).

Definition _get_horizontal (self : Protocol) (width : option Z) (textline : Z)
  (fields : list field) (bottom : bool) (offset : Z) : outcome string :=
  let bpl := bits_per_line self in
  let early := match width with Some w => w <=? 0 | None => false end in
  if early then Ret ""
  else
    let width := match width with Some w => w | None => bpl end in
    let top := textline =? 1 in
    (* first character of the line *)
    let a :=
      if do_unicode self then
        if top || (offset >? 0) then u_top_hdr_char_start
        else if bottom then
          if width <? bpl then u_hdr_char_start else u_bottom_hdr_char_start
        else u_hdr_char_start
      else hdr_char_start self in
    do b <-
      (if do_unicode self then
         let chars := repeat u_hdr_char_fill (Z.to_nat (2 * (width - 1))) in
         do '(chars, start_above, start_below) <-
           foldM (connect_step textline) fields (chars, [], []);
         do chars <-
           (if negb top && negb bottom then
              foldM (fun chars position =>
                       Py.setitem chars (2 * position - 1) u_hdr_connector_cross)
                (filter (fun x => x ∈ start_below) start_above) chars
            else Ret chars);
         Ret (Py.join "" chars)
       else
         Ret (Py.mul (hdr_char_fill_even self +:+ hdr_char_fill_odd self)
                (width - 1)));
    (* last character of the line *)
    let c :=
      if do_unicode self then
        if top then u_hdr_char_fill +:+ u_top_hdr_char_end
        else if bottom then u_hdr_char_fill +:+ u_bottom_hdr_char_end
        else u_hdr_char_fill +:+ u_hdr_char_end
      else hdr_char_fill_even self +:+ hdr_char_end self in
    Ret (a +:+ b +:+ c).

(** *** [_get_separator] *)

Definition _get_separator (self : Protocol) : string :=
  if do_unicode self then u_hdr_char_sep else hdr_char_sep self.

(** *** [__str__] *)

(** The variables of the rendering loop. *)
Record render : Type := mkRender {
  lines : list string;
  r_bits_in_line : Z;
  current_line : string;
  fields_done : Z;
  textline : Z
}.

(** The text of a field as the renderer prints it: cut to the width of the
    cell, with a dot at the end when more than one character is left. *)
Definition truncate (field_text : string) (field_len : Z) : string :=
  if Py.len field_text >? field_len * 2 - 1 then
    let field_text := Py.slice0 field_text (field_len * 2 - 1) in
    if Py.len field_text >? 1 then Py.slice0 field_text (-1) +:+ "."
    else field_text
  else field_text.

(** The border below a line that ends in a fragment with more fragments
    ([field_mf]): it opens towards the fragment on the next line. *)
Definition fragment_border (self : Protocol) (proto_fields : list field)
  (p : nat) (field_len textline : Z) : outcome string :=
  let bpl := bits_per_line self in
  do next <- Py.index proto_fields (S p);
  if len next >? bpl - field_len then
    do line_left <-
      _get_horizontal self (Some (bpl - field_len)) textline proto_fields true 0;
    let line_left :=
      if Py.len line_left =? 0 then
        if do_unicode self then u_hdr_char_start else hdr_char_start self
      else line_left in
    do next <- Py.index proto_fields (S p);
    if len next >=? bpl then
      let line_center := Py.mul " " (2 * field_len - 1) in
      let line_right :=
        if do_unicode self then u_hdr_char_end else hdr_char_end self in
      Ret (line_left +:+ line_center +:+ line_right)
    else
      let line_center := Py.mul " " (2 * (len next - (bpl - field_len)) - 1) in
      do line_right <-
        _get_horizontal self (Some (bpl - len next)) textline proto_fields false
          (Py.len line_left + Py.len line_center);
      Ret (line_left +:+ line_center +:+ line_right)
  else
    _get_horizontal self None textline proto_fields false 0.

(** The lines of a field that starts a line and is a multiple of the line
    length: the [for i in range(0, lines_to_print)] loop, whose state is
    [(lines, textline)]. *)
Definition block_step (self : Protocol) (proto_fields : list field) (p : nat)
  (field_text : string) (lines_to_print central_line : Z)
  (st : list string * Z) (i : Z) : outcome (list string * Z) :=
  let '(lines, textline) := st in
  let bpl := bits_per_line self in
  let '(start_line, end_line) :=
    if i mod 2 =? 1 then
      if do_unicode self then (u_hdr_char_start, u_hdr_char_end)
      else (hdr_char_start self, hdr_char_end self)
    else
      if do_unicode self then (u_hdr_char_sep, u_hdr_char_sep)
      else (hdr_char_sep self, hdr_char_sep self) in
  let '(lines, textline) :=
    if i =? central_line then
      (lines ++ [start_line +:+ Py.center field_text (bpl * 2 - 1) +:+ end_line],
       textline + 1)
    else
      (lines ++ [start_line +:+ Py.mul " " (bpl * 2 - 1) +:+ end_line], textline) in
  if i =? lines_to_print - 1 then
    let bottom := Z.of_nat p =? Z.of_nat (length proto_fields) - 1 in
    do h <- _get_horizontal self None textline proto_fields bottom 0;
    Ret (lines ++ [h], textline)
  else Ret (lines, textline).

(** One turn of the [while p < len(proto_fields)-1] loop, after [p += 1]. *)
Definition render_step (self : Protocol) (proto_fields : list field)
  (st : render) (p : nat) : outcome render :=
  let bpl := bits_per_line self in
  do field <- Py.index proto_fields p;
  let field_text := text field in
  let field_len := len field in
  do field_mf <- Py.getitem (MF field);
  let field_text := truncate field_text field_len in
  if bpl - r_bits_in_line st >=? field_len then
    (* space for the whole field in the current line *)
    let current_line :=
      if r_bits_in_line st =? 0 then current_line st +:+ _get_separator self
      else current_line st in
    let current_line := current_line +:+ Py.center field_text (field_len * 2 - 1) in
    let bits_in_line := r_bits_in_line st + field_len in
    let fields_done := fields_done st + 1 in
    if bits_in_line =? bpl then
      let current_line := current_line +:+ _get_separator self in
      let lines := lines st ++ [current_line] in
      let textline := textline st + 1 in
      do border <-
        (if (field_mf : bool) then
           fragment_border self proto_fields p field_len textline
         else
           let bottom := Z.of_nat p =? Z.of_nat (length proto_fields) - 1 in
           _get_horizontal self None textline proto_fields bottom 0);
      Ret {| lines := lines ++ [border]; r_bits_in_line := 0;
             current_line := ""; fields_done := fields_done;
             textline := textline |}
    else if fields_done =? Z.of_nat (length proto_fields) then
      let current_line := current_line +:+ _get_separator self in
      do border <-
        _get_horizontal self (Some bits_in_line) (textline st) proto_fields true 0;
      Ret {| lines := lines st ++ [current_line] ++ [border];
             r_bits_in_line := bits_in_line; current_line := current_line;
             fields_done := fields_done; textline := textline st |}
    else
      let current_line :=
        current_line +:+
        (if do_unicode self then u_hdr_char_sep else hdr_char_sep self) in
      Ret {| lines := lines st; r_bits_in_line := bits_in_line;
             current_line := current_line; fields_done := fields_done;
             textline := textline st |}
  else
    (* not enough space for the field on this line *)
    if r_bits_in_line st =? 0 then
      if bpl =? 0 then Raise ZeroDivisionError
      else if field_len mod bpl =? 0 then
        (* [field_len / bpl] is a float division in the source; here the
           remainder is zero and the quotient is taken as exact *)
        let lines_to_print := (field_len / bpl) * 2 - 1 in
        let central_line := Z.quot lines_to_print 2 in
        do '(lines, textline) <-
          foldM (block_step self proto_fields p field_text lines_to_print
                   central_line)
            (Py.range lines_to_print) (lines st, textline st);
        Ret {| lines := lines; r_bits_in_line := r_bits_in_line st;
               current_line := current_line st;
               fields_done := fields_done st + 1; textline := textline |}
      else Ret st
    else Raise AssertionError.

(** The method: the diagram, and the object as the call leaves it. *)
Definition __str__ (fuel : nat) (self : Protocol) : outcome (string * Protocol) :=
  do '(proto_fields, self) <- _process_field_list fuel self;
  let numbers :=
    match _get_top_numbers self with
    | Some numbers => [numbers]
    | None => []
    end in
  do top <- _get_horizontal self None 1 proto_fields false 0;
  let st := {| lines := numbers ++ [top]; r_bits_in_line := 0;
               current_line := ""; fields_done := 0; textline := 1 |} in
  do st <- foldM (render_step self proto_fields)
             (seq 0 (length proto_fields)) st;
  Ret (Py.join (String "010" "") (lines st), self).

(** ** Notions the properties are stated with *)

(** The fields of positive length, as [parse_spec] builds them. *)
Definition positive_lengths (fl : list field) : Prop :=
  Forall (fun f => 0 < len f) fl.

(** The sum of the ['len'] keys of a list of placed fields. *)
Definition total_len (l : list field) : Z :=
  fold_right (fun f acc => len f + acc) 0 l.

(** The placed fields of text line [r], and the bits they hold. *)
Definition on_line (r : Z) (f : field) : bool :=
  match line f with
  | Some r' => r' =? r
  | None => false
  end.

Definition row_fields (r : Z) (placed : list field) : list field :=
  List.filter (on_line r) placed.

Definition row_bits (r : Z) (placed : list field) : Z :=
  total_len (row_fields r placed).

(** A block: a placed field longer than a line whose length is a multiple
    of the line length (Case 1 of the layout pass). *)
Definition is_block (bits_per_line : Z) (f : field) : Prop :=
  bits_per_line < len f /\ len f mod bits_per_line = 0.

(** A line is in order when it is full, or holds one block and nothing
    else. *)
Definition row_ok (bits_per_line : Z) (r : Z) (placed : list field) : Prop :=
  row_bits r placed = bits_per_line
  \/ exists f, row_fields r placed = [f] /\ is_block bits_per_line f.

(** Row saturation as the specification words it: no line holds more than
    [bits_per_line] bits, and every line before a line that holds a field
    holds exactly [bits_per_line] bits. *)
Definition rows_saturated (bits_per_line : Z) (placed : list field) : Prop :=
  (forall r, row_bits r placed <= bits_per_line)
  /\ (forall r r', 1 <= r < r' -> row_fields r' placed <> [] ->
                   row_bits r placed = bits_per_line).

(** Row saturation with the blocks set apart. *)
Definition rows_saturated_or_block (bits_per_line : Z) (placed : list field)
  : Prop :=
  (forall r, row_bits r placed <= bits_per_line
             \/ exists f, row_fields r placed = [f] /\ is_block bits_per_line f)
  /\ (forall r r', 1 <= r < r' -> row_fields r' placed <> [] ->
                   row_ok bits_per_line r placed).

(** The index [i] the loop was at in each of its turns, in order.  Every
    turn appends one dict to [new_fields], so the n-th entry tells which
    field of [self.field_list] the n-th placed field comes from. *)
Fixpoint layout_origins (fuel : nat) (bits_per_line : Z) (st : layout)
  {struct fuel} : list nat :=
  match fields st !! i st with
  | None => []
  | Some field =>
      match fuel with
      | O => []
      | S fuel' =>
          match layout_step bits_per_line st field with
          | Ret st' => i st :: layout_origins fuel' bits_per_line st'
          | _ => []
          end
      end
  end.

(** The placed fields that come from the field at index [k]. *)
Fixpoint fragments_of (k : nat) (origins : list nat) (placed : list field)
  : list field :=
  match origins, placed with
  | o :: origins', f :: placed' =>
      if (o =? k)%nat then f :: fragments_of k origins' placed'
      else fragments_of k origins' placed'
  | _, _ => []
  end.

(** Two outcomes of the parser that differ at most in the text of the
    message of the exception. *)
Definition same_behaviour (r1 r2 : outcome Protocol) : Prop :=
  match r1, r2 with
  | Ret a, Ret b => a = b
  | Raise _, Raise _ => True
  | Timeout, Timeout => True
  | _, _ => False
  end.

(** Two options that differ in the letter case of the key only, or, for the
    key [numbers], in the letter case of the value as well. *)
Inductive case_variant : string -> string -> Prop :=
  | case_variant_same opt : case_variant opt opt
  | case_variant_key var1 value1 var2 value2 :
      Py.lower var1 = Py.lower var2 ->
      value1 = value2
      \/ (Py.lower var1 = "numbers" /\ Py.lower value1 = Py.lower value2) ->
      case_variant (var1 +:+ String "=" value1) (var2 +:+ String "=" value2).

(** What holds of the variables at the head of every turn: the line is
    not full, and the fields still to place have positive lengths. *)
Definition layout_valid (bits_per_line : Z) (st : layout) : Prop :=
  0 <= bits_in_line st < bits_per_line
  /\ positive_lengths (drop (i st) (fields st)).

(** The bits of field [k] that are still to be placed. *)
Definition pending_len (st : layout) (k : nat) : Z :=
  if (i st <=? k)%nat then
    match fields st !! k with
    | Some f => len f
    | None => 0
    end
  else 0.

(** The placed fields sit on the lines 1 to [top]. *)
Definition lines_within (top : Z) (placed : list field) : Prop :=
  Forall (fun f => exists r', line f = Some r' /\ 1 <= r' <= top) placed.

(** What holds of the placed fields at the head of every turn. *)
Definition rows_invariant (bits_per_line : Z) (st : layout) : Prop :=
  layout_valid bits_per_line st
  /\ 1 <= text_line st
  /\ lines_within (text_line st) (new_fields st)
  /\ row_bits (text_line st) (new_fields st) = bits_in_line st
  /\ (bits_in_line st = 0 -> row_fields (text_line st) (new_fields st) = [])
  /\ forall r, 1 <= r < text_line st -> row_ok bits_per_line r (new_fields st).

(** A character that [lower] neither makes nor unmakes. *)
Definition caseless (c : ascii) : Prop :=
  forall a, Ascii.eqb (Py.lower_char a) c = Ascii.eqb a c.

(** The field part of a spec: what comes before the first ["?"]. *)
Definition fields_of (spec : string) : string :=
  match Py.split "?" spec with
  | fields :: _ => fields
  | [] => spec
  end.

(** The lines of a diagram, joined as [__str__] joins them. *)
Definition unlines (l : list string) : string := Py.join (String "010" "") l.

(** The two diagrams of [a:20,b:20] without ruler: the first rendering and
    the second. *)
Definition diagram_a20_b20 : string :=
  unlines
    ["+-+-+-+-+-+-+-+-+-+-+-+-+-+-+-+-+-+-+-+-+-+-+-+-+-+-+-+-+-+-+-+-+";
     "|                   a                   |           b           |";
     "+-+-+-+-+-+-+-+-+-+-+-+-+-+-+-+-+-+-+-+-+-+-+-+-+-+-+-+-+-+-+-+-+";
     "|               |";
     "+-+-+-+-+-+-+-+-+"].

Definition diagram_a20_b20_again : string :=
  unlines
    ["+-+-+-+-+-+-+-+-+-+-+-+-+-+-+-+-+-+-+-+-+-+-+-+-+-+-+-+-+-+-+-+-+";
     "|                   a                   |               |";
     "+-+-+-+-+-+-+-+-+-+-+-+-+-+-+-+-+-+-+-+-+-+-+-+-+-+-+-+-+"].

(** The objects of the examples. *)
Definition spec_a20_b20 : Protocol :=
  set_field_list [new_field "a" 20; new_field "b" 20] init.

(** The three placed fields of [a:20,b:20] on lines of 32 bits. *)
Definition placed_a : field :=
  mkField "a" 20 (Some false) (Some 1) (Some 0) (Some 19).
Definition placed_b_here : field :=
  mkField "b" 12 (Some true) (Some 1) (Some 20) (Some 31).
Definition placed_b_rest : field :=
  mkField "" 8 (Some false) (Some 2) (Some 0) (Some 7).

Definition spec_a64_b8 : Protocol :=
  set_field_list [new_field "a" 64; new_field "b" 8] init.

(** The field that a token [text:bits] of the spec stands for: the dict as
    the parser builds it, with none of the keys of the layout pass. *)
Definition token_field (item : string) (f : field) : Prop :=
  exists bits,
    Py.split ":" item = [text f; bits]
    /\ Py.int bits = Some (len f) /\ 0 < len f
    /\ MF f = None /\ line f = None /\ start f = None /\ end_ f = None.

(** The option keys that [parse_spec] acts on. *)
Definition known_keys : list string :=
  ["bits"; "numbers"; "oddchar"; "evenchar"; "startchar"; "endchar"; "sepchar"].

(** The five characters of the ASCII borders are one character each. *)
Definition single_glyphs (self : Protocol) : Prop :=
  Py.len (hdr_char_start self) = 1 /\ Py.len (hdr_char_end self) = 1
  /\ Py.len (hdr_char_fill_odd self) = 1 /\ Py.len (hdr_char_fill_even self) = 1
  /\ Py.len (hdr_char_sep self) = 1.

(** The placed fields as they tile the lines, read from the front.  A
    position is a bit offset in a line and the number of the line.  A field
    that is not a block starts at the position, ends at
    [start + len - 1] within the line, and closes the line when it reaches
    its last bit; a field marked as having more fragments always does.  A
    block starts an empty line, is recorded from bit 0 to the last bit of
    the line, and closes the line. *)
Inductive tiles (bits_per_line : Z) : Z * Z -> list field -> Z * Z -> Prop :=
  | tiles_nil pos : tiles bits_per_line pos [] pos
  | tiles_keep c ln f mf l pos' :
      MF f = Some mf -> line f = Some ln ->
      start f = Some c -> end_ f = Some (c + len f - 1) ->
      0 <= c -> 0 < len f -> len f <= bits_per_line - c ->
      (mf = true -> c + len f = bits_per_line) ->
      tiles bits_per_line
        (if c + len f =? bits_per_line then (0, ln + 1) else (c + len f, ln))
        l pos' ->
      tiles bits_per_line (c, ln) (f :: l) pos'
  | tiles_block ln f l pos' :
      MF f = Some false -> line f = Some ln ->
      start f = Some 0 -> end_ f = Some (bits_per_line - 1) ->
      bits_per_line < len f -> len f mod bits_per_line = 0 ->
      tiles bits_per_line (0, ln + 1) l pos' ->
      tiles bits_per_line (0, ln) (f :: l) pos'.

(** A placed field with its place: the keys ['start'] and ['line'] are
    there, and the start is within the line. *)
Definition has_place (bits_per_line : Z) (f : field) : Prop :=
  exists s e ln,
    start f = Some s /\ end_ f = Some e /\ line f = Some ln
    /\ 0 <= s <= e /\ e < bits_per_line /\ 1 <= ln.

(** The last placed field is not marked as having more fragments. *)
Definition ends_whole (placed : list field) : Prop :=
  forall l r, placed = l ++ [r] -> MF r <> Some true.

(** What the layout loop keeps about the tiling. *)
Definition tiles_invariant (bits_per_line : Z) (st : layout) : Prop :=
  layout_valid bits_per_line st
  /\ tiles bits_per_line (0, 1) (new_fields st) (bits_in_line st, text_line st)
  /\ (forall l r, new_fields st = l ++ [r] -> MF r = Some true ->
                  is_Some (fields st !! i st)).

(** A placed field that is a dict of [self.field_list] itself: the dicts the
    pass makes for the first part of a split are the ones marked as having
    more fragments. *)
Definition is_whole (f : field) : bool :=
  match MF f with
  | Some false => true
  | _ => false
  end.

(** The sum over a list of placed fields of a number read off each. *)
Definition total_of (w : field -> Z) (l : list field) : Z :=
  fold_right (fun f acc => w f + acc) 0 l.

(** 1 for a field with a text, 0 for a field with the empty text. *)
Definition labelled (f : field) : Z :=
  if (text f =? "")%string then 0 else 1.

(** 1 for a field whose text is neither empty nor [t]. *)
Definition foreign (t : string) (f : field) : Z :=
  if (text f =? "")%string || (text f =? t)%string then 0 else 1.


(** Two field dicts with the same text and the same length. *)
Definition same_spec (f g : field) : Prop :=
  text f = text g /\ len f = len g.

(** Two states of the layout loop that differ at most in the keys ['MF'],
    ['line'], ['start'] and ['end'] of the fields of the object. *)
Definition layout_alike (st1 st2 : layout) : Prop :=
  Forall2 same_spec (fields st1) (fields st2)
  /\ new_fields st1 = new_fields st2
  /\ bits_in_line st1 = bits_in_line st2
  /\ i st1 = i st2
  /\ text_line st1 = text_line st2.

(** The text of every field longer than a line fits a line: what a block
    needs for its text to fit the line it is written on. *)
Definition long_texts_fit (bits_per_line : Z) (l : list field) : Prop :=
  Forall (fun f => bits_per_line < len f ->
                   Py.len (text f) <= 2 * bits_per_line - 1) l.



(** * Properties *)

(** ** The layout of [a:20,b:20] *)

Example parse_a20_b20 : new "a:20,b:20" = Ret spec_a20_b20.
Proof. reflexivity. Qed.

(** C2, as amended.  For [a:20,b:20] with 32 bits per line the layout pass
    places [a] whole on line 1, then splits [b]: the fragment of 12 bits that
    ends line 1 carries the label "b" and is marked as having more
    fragments, and the fragment of 8 bits that starts line 2 has no label
    (12 >= 8, so the text stays on the current line). *)
Theorem layout_a20_b20 (fuel : nat) :
  (3 <= fuel)%nat ->
  exists self',
    _process_field_list fuel spec_a20_b20
    = Ret ([placed_a; placed_b_here; placed_b_rest], self').
Proof.
  intros Hfuel.
  destruct fuel as [|[|[|[|fuel]]]]; try lia; vm_compute; eexists; reflexivity.
Qed.

Lemma layout_a20_b20_witness :
  exists self',
    _process_field_list 3 spec_a20_b20
    = Ret ([placed_a; placed_b_here; placed_b_rest], self').
Proof. apply (layout_a20_b20 3). lia. Defined.

(** C2, as stated, fails: no run of the layout pass on [a:20,b:20] gives a
    fragment of 12 bits without label followed by a fragment of 8 bits
    labelled "b". *)
Lemma layout_a20_b20_not_as_claimed :
  ~ (exists fuel a frag rest self',
        _process_field_list fuel spec_a20_b20 = Ret ([a; frag; rest], self')
        /\ len frag = 12 /\ text frag = "" /\ MF frag = Some true
        /\ len rest = 8 /\ text rest = "b").
Proof.
  intros (fuel & a & frag & rest & self' & Hrun & _ & Htext & _).
  destruct fuel as [|[|[|[|fuel]]]]; vm_compute in Hrun;
    try discriminate Hrun;
    injection Hrun as <- <- <- <-; discriminate Htext.
Qed.

(** ** The layout pass, turn by turn *)

Section LayoutStep.

Variable bits_per_line : Z.

(** The three ways a turn can end without an exception. *)
Lemma layout_step_inv st f st' :
  layout_step bits_per_line st f = Ret st' ->
  (len f <= bits_per_line - bits_in_line st
   /\ st' = keep_field bits_per_line st (set_MF false f))
  \/ (bits_per_line - bits_in_line st < len f
      /\ bits_in_line st = 0 /\ bits_per_line <> 0
      /\ len f mod bits_per_line = 0
      /\ st' = block_field bits_per_line st (set_MF false f))
  \/ (bits_per_line - bits_in_line st < len f
      /\ (bits_in_line st <> 0 \/ len f mod bits_per_line <> 0)
      /\ st' = split_field bits_per_line st (set_MF false f) (text f)).
Proof.
  unfold layout_step, aligned_multiple. cbn [len set_MF].
  destruct (bits_per_line - bits_in_line st >=? len f) eqn:Hfit.
  - apply Z.geb_le in Hfit. intros [= <-]. left. split; [lia | reflexivity].
  - rewrite Z.geb_leb in Hfit. apply Z.leb_gt in Hfit.
    destruct (bits_in_line st =? 0) eqn:Hzero.
    + apply Z.eqb_eq in Hzero.
      destruct (bits_per_line =? 0) eqn:Hbpl; [discriminate |].
      apply Z.eqb_neq in Hbpl. cbn [bind].
      destruct (len f mod bits_per_line =? 0) eqn:Hmod; intros [= <-].
      * apply Z.eqb_eq in Hmod. right. left. repeat split; assumption.
      * apply Z.eqb_neq in Hmod. right. right.
        repeat split; [assumption | right; assumption].
    + apply Z.eqb_neq in Hzero. cbn [bind]. intros [= <-]. right. right.
      repeat split; [assumption | left; assumption].
Qed.

(** A turn that keeps the field. *)
Lemma layout_step_keep st f :
  len f <= bits_per_line - bits_in_line st ->
  layout_step bits_per_line st f
  = Ret (keep_field bits_per_line st (set_MF false f)).
Proof.
  intros Hfit. unfold layout_step. cbn [len set_MF].
  destruct (bits_per_line - bits_in_line st >=? len f) eqn:E; [reflexivity |].
  rewrite Z.geb_leb in E. apply Z.leb_gt in E. lia.
Qed.

(** A turn that splits the field. *)
Lemma layout_step_split st f :
  bits_per_line - bits_in_line st < len f ->
  bits_in_line st <> 0 \/ (bits_per_line <> 0 /\ len f mod bits_per_line <> 0) ->
  layout_step bits_per_line st f
  = Ret (split_field bits_per_line st (set_MF false f) (text f)).
Proof.
  intros Hfit Hsplit. unfold layout_step, aligned_multiple. cbn [len set_MF].
  destruct (bits_per_line - bits_in_line st >=? len f) eqn:E.
  { apply Z.geb_le in E. lia. }
  destruct (bits_in_line st =? 0) eqn:Hzero; [| reflexivity].
  apply Z.eqb_eq in Hzero.
  destruct Hsplit as [Hne | [Hbpl Hmod]]; [contradiction |].
  apply Z.eqb_neq in Hbpl, Hmod. rewrite Hbpl. cbn [bind]. rewrite Hmod.
  reflexivity.
Qed.

(** A turn that places a block. *)
Lemma layout_step_block st f :
  bits_per_line < len f -> bits_in_line st = 0 -> bits_per_line <> 0 ->
  len f mod bits_per_line = 0 ->
  layout_step bits_per_line st f
  = Ret (block_field bits_per_line st (set_MF false f)).
Proof.
  intros Hlong Hzero Hbpl Hmod. unfold layout_step, aligned_multiple.
  cbn [len set_MF].
  destruct (bits_per_line - bits_in_line st >=? len f) eqn:E.
  { apply Z.geb_le in E. lia. }
  apply Z.eqb_eq in Hzero. apply Z.eqb_neq in Hbpl. apply Z.eqb_eq in Hmod.
  rewrite Hzero, Hbpl. cbn [bind]. rewrite Hmod. reflexivity.
Qed.

(** Every turn appends one dict, on the line the loop is at. *)
Lemma layout_step_appends st f st' :
  layout_step bits_per_line st f = Ret st' ->
  exists r, new_fields st' = new_fields st ++ [r]
            /\ line r = Some (text_line st).
Proof.
  intros H. apply layout_step_inv in H.
  destruct H as [[_ ->] | [(_ & _ & _ & _ & ->) | (_ & _ & ->)]];
    eexists; split; reflexivity.
Qed.

(** When the loop is past the last field it returns at once. *)
Lemma layout_loop_done fuel st :
  fields st !! i st = None -> layout_loop fuel bits_per_line st = Ret st.
Proof. intros H. destruct fuel; cbn [layout_loop]; rewrite H; reflexivity. Qed.

(** One unfolding of the loop. *)
Lemma layout_loop_turn fuel st f :
  fields st !! i st = Some f ->
  layout_loop (S fuel) bits_per_line st
  = bind (layout_step bits_per_line st f) (layout_loop fuel bits_per_line).
Proof. intros H. cbn [layout_loop]. rewrite H. reflexivity. Qed.

(** A property that every turn keeps holds when the loop returns; and
    then the loop is past the last field. *)
Lemma layout_loop_invariant (P : layout -> Prop) :
  (forall st f st', P st -> fields st !! i st = Some f ->
                    layout_step bits_per_line st f = Ret st' -> P st') ->
  forall fuel st st',
    P st -> layout_loop fuel bits_per_line st = Ret st' ->
    P st' /\ fields st' !! i st' = None.
Proof.
  intros Hstep fuel. induction fuel as [| fuel IH]; intros st st' HP Hrun.
  - cbn [layout_loop] in Hrun.
    destruct (fields st !! i st) eqn:Hi; [discriminate |].
    injection Hrun as <-. split; assumption.
  - destruct (fields st !! i st) as [f |] eqn:Hi.
    + rewrite (layout_loop_turn _ _ _ Hi) in Hrun.
      destruct (layout_step bits_per_line st f) as [st1 | |] eqn:Hst;
        try discriminate.
      cbn [bind] in Hrun. eapply IH; [| exact Hrun]. eapply Hstep; eassumption.
    + rewrite (layout_loop_done _ _ Hi) in Hrun. injection Hrun as <-.
      split; assumption.
Qed.

(** More fuel does not change an answer. *)
Lemma layout_loop_mono fuel fuel' st st' :
  (fuel <= fuel')%nat ->
  layout_loop fuel bits_per_line st = Ret st' ->
  layout_loop fuel' bits_per_line st = Ret st'.
Proof.
  revert fuel' st. induction fuel as [| fuel IH]; intros fuel' st Hle Hrun.
  - cbn [layout_loop] in Hrun.
    destruct (fields st !! i st) eqn:Hi; [discriminate |].
    rewrite (layout_loop_done _ _ Hi). exact Hrun.
  - destruct fuel' as [| fuel']; [lia |].
    destruct (fields st !! i st) as [f |] eqn:Hi.
    + rewrite (layout_loop_turn fuel _ _ Hi) in Hrun.
      rewrite (layout_loop_turn fuel' _ _ Hi).
      destruct (layout_step bits_per_line st f) as [st1 | |];
        try discriminate.
      cbn [bind] in *. apply IH; [lia | exact Hrun].
    + rewrite (layout_loop_done (S fuel) _ Hi) in Hrun.
      rewrite (layout_loop_done (S fuel') _ Hi). exact Hrun.
Qed.

End LayoutStep.

(** ** The layout pass returns *)

Section LayoutTotal.

Variable bits_per_line : Z.
Hypothesis bits_per_line_pos : 0 < bits_per_line.

Lemma drop_insert_here (l : list field) (n : nat) (f x : field) :
  l !! n = Some f -> drop n (<[n := x]> l) = x :: drop (S n) l.
Proof.
  intros H. rewrite drop_insert_ge by lia. rewrite Nat.sub_diag.
  rewrite (drop_S _ _ _ H). reflexivity.
Qed.

Lemma drop_insert_next (l : list field) (n : nat) (x : field) :
  drop (S n) (<[n := x]> l) = drop (S n) l.
Proof. apply drop_insert_lt. lia. Qed.

(** A turn from a valid state returns a valid state, nearer to the end. *)
Lemma layout_step_valid st f :
  layout_valid bits_per_line st -> fields st !! i st = Some f ->
  exists st',
    layout_step bits_per_line st f = Ret st'
    /\ layout_valid bits_per_line st'
    /\ (layout_fuel (drop (i st') (fields st'))
        < layout_fuel (drop (i st) (fields st)))%nat.
Proof.
  intros [Hbits Hpos] Hi.
  rewrite (drop_S _ _ _ Hi) in Hpos |- *.
  apply Forall_cons in Hpos as [Hf Hrest].
  destruct (Z_le_gt_dec (len f) (bits_per_line - bits_in_line st)) as [Hfit | Hfit].
  - eexists. split; [apply layout_step_keep; exact Hfit |].
    unfold layout_valid, keep_field.
    cbn [bits_in_line i fields len set_MF set_line set_start set_end].
    rewrite drop_insert_next. split; [split |].
    + destruct (Z.eqb_spec (bits_in_line st + len f) bits_per_line); lia.
    + exact Hrest.
    + unfold layout_fuel. cbn [fold_right]. lia.
  - destruct (Z.eq_dec (bits_in_line st) 0) as [Hzero | Hzero];
      [destruct (Z.eq_dec (len f mod bits_per_line) 0) as [Hmod | Hmod] |].
    + eexists. split; [apply layout_step_block; lia |].
      unfold layout_valid, block_field. cbn [bits_in_line i fields].
      rewrite drop_insert_next. split; [split |].
      * lia.
      * exact Hrest.
      * unfold layout_fuel. cbn [fold_right]. lia.
    + eexists. split; [apply layout_step_split; lia |].
      unfold layout_valid, split_field. cbn [bits_in_line i fields].
      rewrite (drop_insert_here _ _ _ _ Hi). split; [split |].
      * lia.
      * apply Forall_cons. split; [cbn; lia | exact Hrest].
      * unfold layout_fuel. cbn [fold_right len set_MF set_len set_text]. lia.
    + eexists. split; [apply layout_step_split; lia |].
      unfold layout_valid, split_field. cbn [bits_in_line i fields].
      rewrite (drop_insert_here _ _ _ _ Hi). split; [split |].
      * lia.
      * apply Forall_cons. split; [cbn; lia | exact Hrest].
      * unfold layout_fuel. cbn [fold_right len set_MF set_len set_text]. lia.
Qed.

(** With [layout_fuel] turns of fuel the loop returns. *)
Lemma layout_loop_total fuel st :
  layout_valid bits_per_line st ->
  (layout_fuel (drop (i st) (fields st)) <= fuel)%nat ->
  exists st', layout_loop fuel bits_per_line st = Ret st'.
Proof.
  revert st. induction fuel as [| fuel IH]; intros st Hvalid Hfuel.
  - destruct (fields st !! i st) as [f |] eqn:Hi.
    + rewrite (drop_S _ _ _ Hi) in Hfuel. unfold layout_fuel in Hfuel.
      cbn [fold_right] in Hfuel. lia.
    + exists st. apply layout_loop_done. exact Hi.
  - destruct (fields st !! i st) as [f |] eqn:Hi.
    + destruct (layout_step_valid st f Hvalid Hi) as (st1 & Hst & Hv1 & Hlt).
      rewrite (layout_loop_turn _ _ _ _ Hi), Hst. cbn [bind].
      apply IH; [exact Hv1 | lia].
    + exists st. apply layout_loop_done. exact Hi.
Qed.

Lemma layout_init_valid self :
  positive_lengths (field_list self) -> layout_valid bits_per_line (layout_init self).
Proof. intros H. split; [cbn; lia | exact H]. Qed.

End LayoutTotal.

(** ** Lengths are kept by the layout pass *)

Section LayoutLengths.

Variable bits_per_line : Z.

Lemma layout_origins_done fuel st :
  fields st !! i st = None -> layout_origins fuel bits_per_line st = [].
Proof. intros H. destruct fuel; cbn [layout_origins]; rewrite H; reflexivity. Qed.

Lemma layout_origins_turn fuel st f st1 :
  fields st !! i st = Some f ->
  layout_step bits_per_line st f = Ret st1 ->
  layout_origins (S fuel) bits_per_line st
  = i st :: layout_origins fuel bits_per_line st1.
Proof. intros Hi Hst. cbn [layout_origins]. rewrite Hi, Hst. reflexivity. Qed.

(** What a turn does to the bits still to be placed: the dict it appends
    takes its length off the field the loop is at, and nothing else
    changes. *)
Lemma layout_step_pending st f st1 :
  fields st !! i st = Some f ->
  layout_step bits_per_line st f = Ret st1 ->
  exists r,
    new_fields st1 = new_fields st ++ [r]
    /\ forall k,
        pending_len st k
        = (if (i st =? k)%nat then len r else 0) + pending_len st1 k.
Proof.
  intros Hi Hst.
  assert (Hlt : (i st < length (fields st))%nat)
    by (eapply lookup_lt_Some; exact Hi).
  apply layout_step_inv in Hst.
  destruct Hst as [[_ ->] | [(_ & _ & _ & _ & ->) | (_ & _ & ->)]];
    (eexists; split; [reflexivity |]); intros k; unfold pending_len;
    cbn [i fields keep_field block_field split_field len
           set_MF set_line set_start set_end set_len set_text];
    destruct (Nat.eqb_spec (i st) k) as [<- | Hne].
  - rewrite Nat.leb_refl, Hi.
    replace (S (i st) <=? i st)%nat with false
      by (symmetry; apply Nat.leb_gt; lia).
    lia.
  - rewrite list_lookup_insert_ne by exact Hne.
    destruct (Nat.leb_spec (i st) k), (Nat.leb_spec (S (i st)) k);
      try lia; reflexivity.
  - rewrite Nat.leb_refl, Hi.
    replace (S (i st) <=? i st)%nat with false
      by (symmetry; apply Nat.leb_gt; lia).
    lia.
  - rewrite list_lookup_insert_ne by exact Hne.
    destruct (Nat.leb_spec (i st) k), (Nat.leb_spec (S (i st)) k);
      try lia; reflexivity.
  - rewrite Nat.leb_refl, Hi.
    rewrite list_lookup_insert_eq by exact Hlt.
    cbn [len set_MF set_len set_text]. lia.
  - rewrite list_lookup_insert_ne by exact Hne. lia.
Qed.

(** When the loop returns, the dicts it has appended that come from field
    [k] hold together the bits of field [k] that were still to be
    placed. *)
Lemma layout_loop_lengths fuel st st' :
  layout_loop fuel bits_per_line st = Ret st' ->
  exists added,
    new_fields st' = new_fields st ++ added
    /\ length added = length (layout_origins fuel bits_per_line st)
    /\ forall k,
        total_len (fragments_of k (layout_origins fuel bits_per_line st) added)
        = pending_len st k.
Proof.
  revert st. induction fuel as [| fuel IH]; intros st Hrun.
  - cbn [layout_loop] in Hrun.
    destruct (fields st !! i st) eqn:Hi; [discriminate |].
    injection Hrun as <-. exists []. rewrite app_nil_r.
    rewrite (layout_origins_done _ _ Hi). repeat split. intros k.
    unfold pending_len. cbn.
    destruct (Nat.leb_spec (i st) k); [| reflexivity].
    rewrite (lookup_ge_None_2 (fields st) k); [reflexivity |].
    apply lookup_ge_None_1 in Hi. lia.
  - destruct (fields st !! i st) as [f |] eqn:Hi.
    + rewrite (layout_loop_turn _ _ _ _ Hi) in Hrun.
      destruct (layout_step bits_per_line st f) as [st1 | |] eqn:Hst;
        try discriminate.
      cbn [bind] in Hrun.
      destruct (IH _ Hrun) as (added & Hnew & Hlen & Hsum).
      destruct (layout_step_pending _ _ _ Hi Hst) as (r & Hr & Hpend).
      exists (r :: added).
      rewrite (layout_origins_turn _ _ _ _ Hi Hst). repeat split.
      * rewrite Hnew, Hr, <- app_assoc. reflexivity.
      * cbn [length]. rewrite Hlen. reflexivity.
      * intros k. rewrite Hpend. cbn [fragments_of].
        destruct (i st =? k)%nat; cbn [total_len fold_right];
          fold (total_len (fragments_of k
                  (layout_origins fuel bits_per_line st1) added));
          rewrite Hsum; lia.
    + rewrite (layout_loop_done _ _ _ Hi) in Hrun. injection Hrun as <-.
      exists []. rewrite app_nil_r.
      rewrite (layout_origins_done _ _ Hi). repeat split. intros k.
      unfold pending_len. cbn.
      destruct (Nat.leb_spec (i st) k); [| reflexivity].
      rewrite (lookup_ge_None_2 (fields st) k); [reflexivity |].
      apply lookup_ge_None_1 in Hi. lia.
Qed.

End LayoutLengths.

(** C6.  Length round trip: for every list of fields of positive length and
    every positive [bits_per_line] the layout pass returns, and the placed
    fields that come from one field of the list hold together exactly the
    bits of that field.  [layout_origins] tells for every placed field the
    index of the field it comes from. *)
Theorem layout_keeps_lengths (self : Protocol) (fuel : nat) :
  0 < bits_per_line self ->
  positive_lengths (field_list self) ->
  (layout_fuel (field_list self) <= fuel)%nat ->
  exists placed self',
    _process_field_list fuel self = Ret (placed, self')
    /\ length placed
       = length (layout_origins fuel (bits_per_line self) (layout_init self))
    /\ forall k f,
        field_list self !! k = Some f ->
        total_len
          (fragments_of k
             (layout_origins fuel (bits_per_line self) (layout_init self))
             placed)
        = len f.
Proof.
  intros Hbpl Hpos Hfuel.
  destruct (layout_loop_total (bits_per_line self) Hbpl fuel (layout_init self))
    as [st' Hrun].
  { apply layout_init_valid; assumption. }
  { exact Hfuel. }
  destruct (layout_loop_lengths _ _ _ _ Hrun) as (added & Hnew & Hlen & Hsum).
  cbn [new_fields layout_init app] in Hnew.
  exists (new_fields st'), (set_field_list (fields st') self).
  unfold _process_field_list. rewrite Hrun. cbn [bind].
  split; [reflexivity |]. rewrite Hnew. split; [exact Hlen |].
  intros k f Hk. rewrite Hsum. unfold pending_len.
  cbn [i fields layout_init]. rewrite Hk. reflexivity.
Qed.

Lemma layout_keeps_lengths_witness :
  exists placed self',
    _process_field_list 42 spec_a20_b20 = Ret (placed, self')
    /\ length placed = length (layout_origins 42 32 (layout_init spec_a20_b20))
    /\ forall k f,
        field_list spec_a20_b20 !! k = Some f ->
        total_len
          (fragments_of k (layout_origins 42 32 (layout_init spec_a20_b20)) placed)
        = len f.
Proof.
  apply (layout_keeps_lengths spec_a20_b20 42).
  - reflexivity.
  - repeat constructor.
  - vm_compute. lia.
Defined.

(** For [a:20,b:20] the first placed field comes from field 0 and the two
    fragments of [b] from field 1. *)
Example origins_a20_b20 :
  layout_origins 42 32 (layout_init spec_a20_b20) = [0; 1; 1]%nat
  /\ fragments_of 1 [0; 1; 1]%nat [placed_a; placed_b_here; placed_b_rest]
     = [placed_b_here; placed_b_rest].
Proof. split; reflexivity. Qed.

(** ** Lines are filled by the layout pass *)

Lemma total_len_app l1 l2 : total_len (l1 ++ l2) = total_len l1 + total_len l2.
Proof.
  unfold total_len. induction l1 as [| f l1 IH]; cbn [fold_right app].
  - reflexivity.
  - rewrite IH. lia.
Qed.

Lemma on_line_true r f : on_line r f = true <-> line f = Some r.
Proof.
  unfold on_line. destruct (line f) as [r' |].
  - rewrite Z.eqb_eq. split; [intros -> | intros [= ->]]; reflexivity.
  - split; discriminate.
Qed.

Lemma row_fields_snoc r placed f :
  row_fields r (placed ++ [f])
  = row_fields r placed ++ (if on_line r f then [f] else []).
Proof. unfold row_fields. rewrite List.filter_app. reflexivity. Qed.

Lemma row_bits_snoc r placed f :
  row_bits r (placed ++ [f])
  = row_bits r placed + (if on_line r f then len f else 0).
Proof.
  unfold row_bits. rewrite row_fields_snoc, total_len_app.
  destruct (on_line r f); cbn; lia.
Qed.

(** No field is placed on a line the loop has not reached, nor above the
    first line. *)
Lemma row_fields_beyond top r placed :
  lines_within top placed -> r < 1 \/ top < r -> row_fields r placed = [].
Proof.
  intros Hall Hr. induction Hall as [| f placed (r' & Hline & Hle) _ IH];
    [reflexivity |].
  cbn [row_fields List.filter]. fold (row_fields r placed). rewrite IH.
  unfold on_line. rewrite Hline.
  destruct (Z.eqb_spec r' r); [lia | reflexivity].
Qed.

Lemma lines_within_snoc top top' placed f :
  lines_within top placed -> line f = Some top -> 1 <= top <= top' ->
  lines_within top' (placed ++ [f]).
Proof.
  intros Hall Hline Hle. apply Forall_app. split.
  - eapply Forall_impl; [exact Hall |].
    intros g (r' & Hg & Hr'). exists r'. split; [exact Hg | lia].
  - apply Forall_cons. split; [| apply Forall_nil_2].
    exists top. split; [exact Hline | lia].
Qed.

Lemma lines_within_mono top top' placed :
  lines_within top placed -> top <= top' -> lines_within top' placed.
Proof.
  intros Hall Hle. eapply Forall_impl; [exact Hall |].
  intros g (r' & Hg & Hr'). exists r'. split; [exact Hg | lia].
Qed.

Section LayoutRows.

Variable bits_per_line : Z.
Hypothesis bits_per_line_pos : 0 < bits_per_line.

Lemma row_ok_snoc_other r placed f :
  on_line r f = false ->
  row_ok bits_per_line r placed -> row_ok bits_per_line r (placed ++ [f]).
Proof.
  intros Hoff [Hfull | (b & Hone & Hblock)]; [left | right].
  - rewrite row_bits_snoc, Hoff. lia.
  - exists b. rewrite row_fields_snoc, Hoff, app_nil_r. split; assumption.
Qed.

Lemma on_line_other r r' f : line f = Some r' -> r <> r' -> on_line r f = false.
Proof.
  intros Hline Hne. unfold on_line. rewrite Hline.
  destruct (Z.eqb_spec r' r); [congruence | reflexivity].
Qed.

(** The state after a turn that closes the line: the placed fields are
    those of before and [r] on the line that is closed. *)
Lemma rows_invariant_next_line st st' r :
  rows_invariant bits_per_line st -> layout_valid bits_per_line st' ->
  new_fields st' = new_fields st ++ [r] ->
  line r = Some (text_line st) ->
  text_line st' = text_line st + 1 -> bits_in_line st' = 0 ->
  row_ok bits_per_line (text_line st) (new_fields st ++ [r]) ->
  rows_invariant bits_per_line st'.
Proof.
  intros (_ & Htl & Hlines & Hbits & Hempty & Hrows) Hvalid Hnew Hline Htl' Hb' Hrow.
  assert (Hlines' : lines_within (text_line st) (new_fields st ++ [r])).
  { eapply lines_within_snoc; [exact Hlines | exact Hline | lia]. }
  unfold rows_invariant. rewrite Hnew, Htl', Hb'.
  split; [exact Hvalid |]. split; [lia |]. split.
  { eapply lines_within_mono; [exact Hlines' | lia]. }
  assert (Hnone : row_fields (text_line st + 1) (new_fields st ++ [r]) = []).
  { eapply row_fields_beyond; [exact Hlines' | lia]. }
  split; [unfold row_bits; rewrite Hnone; reflexivity |].
  split; [intros _; exact Hnone |].
  intros r0 Hr0.
  destruct (Z.eq_dec r0 (text_line st)) as [-> | Hne]; [exact Hrow |].
  apply row_ok_snoc_other.
  - eapply on_line_other; [exact Hline | exact Hne].
  - apply Hrows. lia.
Qed.

(** Every turn keeps the invariant. *)
Lemma layout_step_rows st f st' :
  rows_invariant bits_per_line st -> fields st !! i st = Some f ->
  layout_step bits_per_line st f = Ret st' -> rows_invariant bits_per_line st'.
Proof.
  intros Hinv Hi Hst.
  assert (Hvalid' : layout_valid bits_per_line st').
  { destruct Hinv as (Hvalid & _).
    destruct (layout_step_valid _ bits_per_line_pos _ _ Hvalid Hi)
      as (st1 & Hst1 & Hv1 & _).
    congruence. }
  assert (Hlen : 0 < len f).
  { destruct Hinv as ((_ & Hpos) & _).
    rewrite (drop_S _ _ _ Hi) in Hpos. apply Forall_cons in Hpos. tauto. }
  pose proof Hinv as ((Hbits & _) & Htl & Hlines & Hrb & Hempty & Hrows).
  apply layout_step_inv in Hst.
  destruct Hst as [[Hfit ->] | [(Hlong & Hzero & _ & Hmod & ->) | (Hlong & _ & ->)]].
  - (* the field is kept *)
    set (r := set_end (bits_in_line st + len f - 1)
                (set_start (bits_in_line st)
                   (set_line (text_line st) (set_MF false f)))).
    assert (Hline : line r = Some (text_line st)) by reflexivity.
    assert (Hrlen : len r = len f) by reflexivity.
    assert (Hon : on_line (text_line st) r = true)
      by (apply on_line_true; exact Hline).
    destruct (Z.eq_dec (bits_in_line st + len f) bits_per_line) as [Hfull | Hpart].
    + eapply (rows_invariant_next_line st _ r); try exact Hinv; try exact Hvalid'.
      * reflexivity.
      * exact Hline.
      * unfold keep_field. cbn [text_line len set_MF set_line set_start set_end].
        apply Z.eqb_eq in Hfull. rewrite Hfull. reflexivity.
      * unfold keep_field. cbn [bits_in_line len set_MF set_line set_start set_end].
        apply Z.eqb_eq in Hfull. rewrite Hfull. reflexivity.
      * left. rewrite row_bits_snoc, Hon, Hrb, Hrlen. exact Hfull.
    + assert (Hb : bits_in_line (keep_field bits_per_line st (set_MF false f))
                   = bits_in_line st + len f).
      { unfold keep_field. cbn [bits_in_line len set_MF set_line set_start set_end].
        apply Z.eqb_neq in Hpart. rewrite Hpart. reflexivity. }
      assert (Ht : text_line (keep_field bits_per_line st (set_MF false f))
                   = text_line st).
      { unfold keep_field. cbn [text_line len set_MF set_line set_start set_end].
        apply Z.eqb_neq in Hpart. rewrite Hpart. reflexivity. }
      assert (Hn : new_fields (keep_field bits_per_line st (set_MF false f))
                   = new_fields st ++ [r]) by reflexivity.
      unfold rows_invariant. rewrite Hb, Ht, Hn.
      split; [exact Hvalid' |]. split; [exact Htl |]. split.
      { eapply lines_within_snoc; [exact Hlines | exact Hline | lia]. }
      split; [rewrite row_bits_snoc, Hon, Hrb, Hrlen; reflexivity |].
      split; [intros Hz; lia |].
      intros r0 Hr0. apply row_ok_snoc_other; [| apply Hrows; exact Hr0].
      eapply on_line_other; [exact Hline | lia].
  - (* a block *)
    set (r := set_line (text_line st)
                (set_end (bits_per_line - 1) (set_start 0 (set_MF false f)))).
    assert (Hline : line r = Some (text_line st)) by reflexivity.
    assert (Hon : on_line (text_line st) r = true)
      by (apply on_line_true; exact Hline).
    eapply (rows_invariant_next_line st _ r); try exact Hinv; try exact Hvalid'.
    + reflexivity.
    + exact Hline.
    + reflexivity.
    + exact Hzero.
    + right. exists r. rewrite row_fields_snoc, Hon, (Hempty Hzero).
      split; [reflexivity |]. split; [cbn; lia | exact Hmod].
  - (* a split *)
    set (r := mkField
                (if bits_per_line - bits_in_line st
                    >=? len (set_MF false f) - (bits_per_line - bits_in_line st)
                 then text f else "")
                (bits_per_line - bits_in_line st) (Some true)
                (Some (text_line st)) (Some (bits_in_line st))
                (Some (bits_per_line - 1))).
    assert (Hline : line r = Some (text_line st)) by reflexivity.
    assert (Hon : on_line (text_line st) r = true)
      by (apply on_line_true; exact Hline).
    eapply (rows_invariant_next_line st _ r); try exact Hinv; try exact Hvalid'.
    + reflexivity.
    + exact Hline.
    + reflexivity.
    + reflexivity.
    + left. rewrite row_bits_snoc, Hon, Hrb. cbn [len r]. lia.
Qed.

Lemma rows_invariant_init self :
  positive_lengths (field_list self) -> rows_invariant bits_per_line (layout_init self).
Proof.
  intros Hpos. unfold rows_invariant. cbn [layout_init new_fields text_line bits_in_line].
  split; [apply layout_init_valid; assumption |].
  split; [lia |]. split; [apply Forall_nil_2 |].
  split; [reflexivity |]. split; [reflexivity |].
  intros r Hr. lia.
Qed.

(** The placed fields of a state that satisfies the invariant fill their
    lines, the blocks apart. *)
Lemma rows_invariant_saturated st :
  rows_invariant bits_per_line st -> rows_saturated_or_block bits_per_line (new_fields st).
Proof.
  intros ((Hbits & _) & Htl & Hlines & Hrb & Hempty & Hrows). split.
  - intros r.
    destruct (Z_lt_le_dec r 1) as [Hlow | Hr1];
      [| destruct (Z_lt_le_dec r (text_line st)) as [Hbefore | Hafter];
         [| destruct (Z.eq_dec r (text_line st)) as [-> | Hne]]].
    + left. unfold row_bits.
      rewrite (row_fields_beyond (text_line st) r); [cbn; lia | exact Hlines | lia].
    + destruct (Hrows r ltac:(lia)) as [Hfull | Hblock]; [left; lia | right; exact Hblock].
    + left. lia.
    + left. unfold row_bits.
      rewrite (row_fields_beyond (text_line st) r); [cbn; lia | exact Hlines | lia].
  - intros r r' Hr Hused. apply Hrows. split; [lia |].
    destruct (Z_lt_le_dec (text_line st) r') as [Hbeyond | Hle].
    + exfalso. apply Hused.
      eapply row_fields_beyond; [exact Hlines | right; exact Hbeyond].
    + lia.
Qed.

End LayoutRows.

(** C5, as amended.  For every list of fields of positive length and every
    positive [bits_per_line] the layout pass returns, and in its result
    every line either holds one block and nothing else, or holds at most
    [bits_per_line] bits, exactly [bits_per_line] when a later line holds a
    field. *)
Theorem layout_fills_rows (self : Protocol) (fuel : nat) :
  0 < bits_per_line self ->
  positive_lengths (field_list self) ->
  (layout_fuel (field_list self) <= fuel)%nat ->
  exists placed self',
    _process_field_list fuel self = Ret (placed, self')
    /\ rows_saturated_or_block (bits_per_line self) placed.
Proof.
  intros Hbpl Hpos Hfuel.
  destruct (layout_loop_total (bits_per_line self) Hbpl fuel (layout_init self))
    as [st' Hrun].
  { apply layout_init_valid; assumption. }
  { exact Hfuel. }
  exists (new_fields st'), (set_field_list (fields st') self).
  unfold _process_field_list. rewrite Hrun. cbn [bind].
  split; [reflexivity |].
  apply rows_invariant_saturated; [exact Hbpl |].
  eapply (layout_loop_invariant (bits_per_line self)
            (rows_invariant (bits_per_line self))).
  - intros st f st1. apply layout_step_rows. exact Hbpl.
  - apply rows_invariant_init; [exact Hbpl | exact Hpos].
  - exact Hrun.
Qed.

Example parse_a64_b8 : new "a:64,b:8" = Ret spec_a64_b8.
Proof. reflexivity. Qed.

Lemma layout_fills_rows_witness :
  exists placed self',
    _process_field_list 74 spec_a64_b8 = Ret (placed, self')
    /\ rows_saturated_or_block 32 placed.
Proof.
  apply (layout_fills_rows spec_a64_b8 74).
  - reflexivity.
  - repeat constructor.
  - vm_compute. lia.
Defined.

(** C5, as stated, fails: the block [a:64] is one placed field of 64 bits on
    line 1 of a diagram of 32 bits per line. *)
Lemma layout_a64_b8_row_overfull :
  exists placed self',
    _process_field_list 74 spec_a64_b8 = Ret (placed, self')
    /\ row_bits 1 placed = 64
    /\ ~ rows_saturated 32 placed.
Proof.
  eexists. eexists. split; [vm_compute; reflexivity |].
  split; [reflexivity |].
  intros [Hle _]. specialize (Hle 1). vm_compute in Hle. apply Hle. reflexivity.
Qed.

(** C4, as amended.  A field whose length is [k] times [bits_per_line],
    met at the start of an empty line, is placed as one dict with its whole
    length, from bit 0 to bit [bits_per_line - 1] of that line; the loop
    goes on to the next field with the line counter advanced by one, so
    whatever is placed next sits on the line just after the block's. *)
Theorem block_advances_one_row (bits_per_line : Z) (st : layout) (f : field)
  (k : Z) :
  0 < bits_per_line -> 1 <= k ->
  bits_in_line st = 0 -> len f = k * bits_per_line ->
  exists blk st',
    layout_step bits_per_line st f = Ret st'
    /\ new_fields st' = new_fields st ++ [blk]
    /\ text blk = text f /\ len blk = len f
    /\ line blk = Some (text_line st)
    /\ start blk = Some 0 /\ end_ blk = Some (bits_per_line - 1)
    /\ i st' = S (i st)
    /\ bits_in_line st' = 0
    /\ text_line st' = text_line st + 1
    /\ forall next st'',
        layout_step bits_per_line st' next = Ret st'' ->
        exists r, new_fields st'' = new_fields st' ++ [r]
                  /\ line r = Some (text_line st + 1).
Proof.
  intros Hbpl Hk Hzero Hlen.
  destruct (Z.eq_dec k 1) as [-> | Hk1].
  - (* one line: the field fits and fills the line *)
    assert (Hfull : (bits_in_line st + len f =? bits_per_line) = true)
      by (apply Z.eqb_eq; lia).
    eexists. eexists. split; [apply layout_step_keep; lia |].
    unfold keep_field.
    cbn [new_fields text len line start end_ i bits_in_line text_line
           set_MF set_line set_start set_end].
    rewrite Hfull, Hzero.
    cbn [text len line start end_ set_MF set_line set_start set_end].
    repeat (split; [first [reflexivity | cbn; f_equal; lia] |]).
    intros next st'' Hnext.
    apply layout_step_appends in Hnext as (r & Hr & Hline).
    exists r. split; [exact Hr | exact Hline].
  - (* several lines: Case 1 of the pass *)
    assert (Hmod : len f mod bits_per_line = 0)
      by (rewrite Hlen; apply Z_mod_mult).
    assert (Hlong : bits_per_line < len f) by nia.
    eexists. eexists. split; [apply layout_step_block; lia |].
    unfold block_field.
    cbn [new_fields text len line start end_ i bits_in_line text_line
           set_MF set_line set_start set_end].
    repeat (split; [first [reflexivity | assumption] |]).
    intros next st'' Hnext.
    apply layout_step_appends in Hnext as (r & Hr & Hline).
    exists r. split; [exact Hr | exact Hline].
Qed.

Lemma block_advances_one_row_witness :
  exists blk st',
    layout_step 32 (layout_init spec_a64_b8) (new_field "a" 64) = Ret st'
    /\ new_fields st' = [] ++ [blk]
    /\ text blk = "a" /\ len blk = 64
    /\ line blk = Some 1
    /\ start blk = Some 0 /\ end_ blk = Some (32 - 1)
    /\ i st' = 1%nat
    /\ bits_in_line st' = 0
    /\ text_line st' = 1 + 1
    /\ forall next st'',
        layout_step 32 st' next = Ret st'' ->
        exists r, new_fields st'' = new_fields st' ++ [r]
                  /\ line r = Some (1 + 1).
Proof.
  apply (block_advances_one_row 32 (layout_init spec_a64_b8)
           (new_field "a" 64) 2); [lia | lia | reflexivity | reflexivity].
Defined.

(** C4, as stated, fails: [a:64] is twice the line length of 32, and the
    field after it is placed on line 2, not on line 1 + 2. *)
Lemma layout_a64_b8_next_row :
  exists blk next self',
    _process_field_list 74 spec_a64_b8 = Ret ([blk; next], self')
    /\ len blk = 2 * 32 /\ line blk = Some 1
    /\ line next = Some 2 /\ line next <> Some (1 + 2).
Proof.
  do 3 eexists. split; [vm_compute; reflexivity |].
  repeat split; discriminate.
Qed.

(** C3.  A turn of the layout loop that splits the field it is at (it
    returns with the loop still at that field) appends one fragment that
    takes the [available] bits left on the line and is marked as having
    more fragments, and leaves the rest of the bits in the field.  The text
    of the field is on one of the two and the other has the empty text: on
    the fragment when [available >= len - available], on the rest
    otherwise; so the side with the text holds at least half of the bits. *)
Theorem split_labels_larger_half (bits_per_line : Z) (st : layout) (f : field)
  (st' : layout) :
  fields st !! i st = Some f ->
  layout_step bits_per_line st f = Ret st' ->
  i st' = i st ->
  let available := bits_per_line - bits_in_line st in
  exists frag rest,
    new_fields st' = new_fields st ++ [frag]
    /\ fields st' !! i st = Some rest
    /\ available < len f
    /\ len frag = available /\ len rest = len f - available
    /\ MF frag = Some true /\ MF rest = Some false
    /\ (available >= len f - available ->
        text frag = text f /\ text rest = "" /\ len f <= 2 * len frag)
    /\ (available < len f - available ->
        text frag = "" /\ text rest = text f /\ len f < 2 * len rest).
Proof.
  intros Hi Hst Hsame available.
  assert (Hlt : (i st < length (fields st))%nat)
    by (eapply lookup_lt_Some; exact Hi).
  apply layout_step_inv in Hst.
  destruct Hst as [[_ ->] | [(_ & _ & _ & _ & ->) | (Hlong & _ & ->)]].
  - cbn in Hsame. lia.
  - cbn in Hsame. lia.
  - unfold split_field. cbn [new_fields fields len set_MF].
    eexists. eexists. split; [reflexivity |].
    split; [apply list_lookup_insert_eq; exact Hlt |].
    fold available.
    cbn [len text MF set_MF set_len set_text].
    split; [exact Hlong |]. split; [reflexivity |]. split; [reflexivity |].
    split; [reflexivity |]. split; [reflexivity |].
    destruct (Z.geb_spec available (len f - available)) as [Hge | Hless];
      split; intros Hcase; try lia; repeat split; lia.
Qed.

Lemma split_labels_larger_half_witness :
  exists frag rest,
    [placed_a] ++ [placed_b_here] = [placed_a] ++ [frag]
    /\ [placed_a; mkField "" 8 (Some false) None None None] !! 1%nat = Some rest
    /\ 32 - 20 < 20
    /\ len frag = 32 - 20 /\ len rest = 20 - (32 - 20)
    /\ MF frag = Some true /\ MF rest = Some false
    /\ (32 - 20 >= 20 - (32 - 20) ->
        text frag = "b" /\ text rest = "" /\ 20 <= 2 * len frag)
    /\ (32 - 20 < 20 - (32 - 20) ->
        text frag = "" /\ text rest = "b" /\ 20 < 2 * len rest).
Proof.
  apply (split_labels_larger_half 32
           (mkLayout [placed_a; new_field "b" 20] [placed_a] 20 1%nat 1)
           (new_field "b" 20)
           (mkLayout [placed_a; mkField "" 8 (Some false) None None None]
              [placed_a; placed_b_here] 0 1%nat 2));
    reflexivity.
Defined.

(** ** Facts about the builtins *)

Lemma foldM_app {A S : Type} (body : S -> A -> outcome S) (l1 l2 : list A) (s : S) :
  foldM body (l1 ++ l2) s = bind (foldM body l1 s) (foldM body l2).
Proof.
  revert s. induction l1 as [| x l1 IH]; intros s; cbn [foldM app bind].
  - reflexivity.
  - destruct (body s x); cbn [bind]; [apply IH | reflexivity | reflexivity].
Qed.

Lemma split_nonempty sep s : Py.split sep s <> [].
Proof.
  destruct s as [| c s]; cbn [Py.split]; [discriminate |].
  destruct (Ascii.eqb c sep); [discriminate |].
  destruct (Py.split sep s); discriminate.
Qed.

(** Splitting at a separator that is written out: the parts of the left
    followed by the parts of the right. *)
Lemma split_app sep a b :
  Py.split sep (a +:+ String sep b) = Py.split sep a ++ Py.split sep b.
Proof.
  induction a as [| c a IH]; cbn [String.append Py.split].
  - rewrite Ascii.eqb_refl. reflexivity.
  - destruct (Ascii.eqb c sep); [rewrite IH; reflexivity |].
    rewrite IH. pose proof (split_nonempty sep a) as Hne.
    destruct (Py.split sep a); [contradiction | reflexivity].
Qed.

Lemma split_without sep s : Py.contains sep s = false -> Py.split sep s = [s].
Proof.
  induction s as [| c s IH]; cbn [Py.contains Py.split]; [reflexivity |].
  intros H. apply orb_false_iff in H as [Hc Hs].
  rewrite Hc, (IH Hs). reflexivity.
Qed.

Lemma split_length sep s :
  Z.of_nat (length (Py.split sep s)) = 1 + Py.count sep s.
Proof.
  induction s as [| c s IH]; cbn [Py.split Py.count]; [reflexivity |].
  destruct (Ascii.eqb c sep).
  - cbn [length]. lia.
  - pose proof (split_nonempty sep s) as Hne.
    destruct (Py.split sep s); [contradiction |]. cbn [length] in *. lia.
Qed.

Lemma count_nonneg c s : 0 <= Py.count c s.
Proof.
  induction s as [| a s IH]; cbn [Py.count]; [lia |].
  destruct (Ascii.eqb a c); lia.
Qed.

Lemma contains_count c s : Py.contains c s = false <-> Py.count c s = 0.
Proof.
  induction s as [| a s IH]; cbn [Py.contains Py.count]; [tauto |].
  pose proof (count_nonneg c s).
  destruct (Ascii.eqb a c); cbn [orb]; [split; [discriminate | lia] |].
  rewrite IH. split; lia.
Qed.

Lemma count_app c a b : Py.count c (a +:+ b) = Py.count c a + Py.count c b.
Proof.
  induction a as [| x a IH]; simpl; [lia |].
  rewrite IH. lia.
Qed.

Lemma contains_app c a b :
  Py.contains c (a +:+ b) = Py.contains c a || Py.contains c b.
Proof.
  induction a as [| x a IH]; simpl; [reflexivity |].
  rewrite IH. apply orb_assoc.
Qed.



Lemma caseless_equals : caseless "=".
Proof. intros [[] [] [] [] [] [] [] []]; reflexivity. Qed.

Lemma count_lower c s : caseless c -> Py.count c (Py.lower s) = Py.count c s.
Proof.
  intros Hc. induction s as [| a s IH]; cbn [Py.lower Py.count]; [reflexivity |].
  rewrite Hc, IH. reflexivity.
Qed.

Lemma contains_lower c s :
  caseless c -> Py.contains c (Py.lower s) = Py.contains c s.
Proof.
  intros Hc. induction s as [| a s IH]; cbn [Py.lower Py.contains]; [reflexivity |].
  rewrite Hc, IH. reflexivity.
Qed.

(** Two strings that are equal when lowered hold a caseless character
    equally often. *)
Lemma count_same_lower c s1 s2 :
  caseless c -> Py.lower s1 = Py.lower s2 -> Py.count c s1 = Py.count c s2.
Proof.
  intros Hc Heq. rewrite <- (count_lower c s1 Hc), <- (count_lower c s2 Hc), Heq.
  reflexivity.
Qed.

(** ** The parser *)

Lemma same_behaviour_refl r : same_behaviour r r.
Proof. destruct r; cbn; auto. Qed.

Lemma same_behaviour_bind r1 r2 (k1 k2 : Protocol -> outcome Protocol) :
  same_behaviour r1 r2 ->
  (forall self, same_behaviour (k1 self) (k2 self)) ->
  same_behaviour (bind r1 k1) (bind r2 k2).
Proof.
  intros Hr Hk. destruct r1, r2; cbn in Hr |- *; try contradiction; auto.
  subst. apply Hk.
Qed.

(** Two loops over lists whose elements are related one by one behave the
    same when their bodies do on related elements. *)
Lemma foldM_same_behaviour {A : Type} (R : A -> A -> Prop)
  (f g : Protocol -> A -> outcome Protocol) l1 l2 :
  Forall2 R l1 l2 ->
  (forall self x y, R x y -> same_behaviour (f self x) (g self y)) ->
  forall self, same_behaviour (foldM f l1 self) (foldM g l2 self).
Proof.
  intros Hall Hbody. induction Hall as [| x y l1 l2 Hxy _ IH]; intros self.
  - cbn. reflexivity.
  - cbn [foldM]. apply same_behaviour_bind; [apply Hbody; exact Hxy | exact IH].
Qed.



(** The spec only goes into the message of the exceptions of [parse_item]. *)
Lemma parse_item_same_behaviour spec1 spec2 self item :
  same_behaviour (parse_item spec1 self item) (parse_item spec2 self item).
Proof.
  unfold parse_item.
  destruct (Py.split ":" item) as [| t [| b [| ? ?]]]; cbn; auto.
  destruct (Py.int b) as [n |]; cbn; auto.
  destruct (n <=? 0); cbn; auto.
Qed.

Lemma foldM_parse_item_same_behaviour spec1 spec2 items self :
  same_behaviour (foldM (parse_item spec1) items self)
    (foldM (parse_item spec2) items self).
Proof.
  apply (foldM_same_behaviour eq).
  - clear. induction items; constructor; auto.
  - intros s x y <-. apply parse_item_same_behaviour.
Qed.

(** A spec with one ["?"]: the fields before it, the options after it. *)
Lemma split_spec_options fields opts :
  Py.contains "?" fields = false -> Py.contains "?" opts = false ->
  split_spec (fields +:+ String "?" opts) = Ret (fields, Some opts).
Proof.
  intros Hf Ho. unfold split_spec.
  rewrite contains_app. cbn [Py.contains]. rewrite Ascii.eqb_refl.
  cbn [orb]. rewrite orb_true_r.
  rewrite split_app, (split_without _ _ Hf), (split_without _ _ Ho).
  cbn [app]. rewrite count_app. cbn [Py.count]. rewrite Ascii.eqb_refl.
  apply contains_count in Hf, Ho. rewrite Hf, Ho. reflexivity.
Qed.

Lemma split_spec_plain fields :
  Py.contains "?" fields = false -> split_spec fields = Ret (fields, None).
Proof. intros Hf. unfold split_spec. rewrite Hf. reflexivity. Qed.

Lemma parse_spec_options self fields opts :
  Py.contains "?" fields = false -> Py.contains "?" opts = false ->
  parse_spec self (fields +:+ String "?" opts)
  = bind (foldM (parse_item (fields +:+ String "?" opts))
            (Py.split "," fields) self)
      (foldM parse_opt (Py.split "," opts)).
Proof.
  intros Hf Ho. unfold parse_spec. rewrite (split_spec_options _ _ Hf Ho).
  reflexivity.
Qed.

Lemma parse_spec_plain self fields :
  Py.contains "?" fields = false ->
  parse_spec self fields
  = foldM (parse_item fields) (Py.split "," fields) self.
Proof.
  intros Hf. unfold parse_spec. rewrite (split_spec_plain _ Hf). cbn [bind].
  destruct (foldM (parse_item fields) (Py.split "," fields) self); reflexivity.
Qed.

(** An option written [var=value]. *)
Lemma split_option var value :
  Py.contains "=" var = false -> Py.contains "=" value = false ->
  Py.split "=" (var +:+ String "=" value) = [var; value].
Proof.
  intros Hv Hw. rewrite split_app, (split_without _ _ Hv), (split_without _ _ Hw).
  reflexivity.
Qed.

(** The number of parts of [var=value] at ["="]. *)
Lemma split_option_length var value :
  Z.of_nat (length (Py.split "=" (var +:+ String "=" value)))
  = 2 + Py.count "=" var + Py.count "=" value.
Proof.
  rewrite split_length, count_app. cbn [Py.count]. rewrite Ascii.eqb_refl. lia.
Qed.

Lemma parse_opt_many_parts self opt :
  2 < Z.of_nat (length (Py.split "=" opt)) ->
  parse_opt self opt = Raise (err_options opt).
Proof.
  intros Hlen. unfold parse_opt.
  destruct (Py.split "=" opt) as [| a [| b [| c l]]]; cbn [length] in Hlen;
    try lia; reflexivity.
Qed.

Lemma contains_same_lower c s1 s2 :
  caseless c -> Py.lower s1 = Py.lower s2 ->
  Py.contains c s1 = Py.contains c s2.
Proof.
  intros Hc Heq.
  rewrite <- (contains_lower c s1 Hc), <- (contains_lower c s2 Hc), Heq.
  reflexivity.
Qed.

(** The body of the loop over the options does not tell case variants
    apart. *)
Lemma parse_opt_case_variant self opt1 opt2 :
  case_variant opt1 opt2 ->
  same_behaviour (parse_opt self opt1) (parse_opt self opt2).
Proof.
  intros [opt | var1 value1 var2 value2 Hvar Hvalue];
    [apply same_behaviour_refl |].
  assert (Hvalue' : Py.lower value1 = Py.lower value2)
    by (destruct Hvalue as [-> | [_ H]]; [reflexivity | exact H]).
  pose proof (count_same_lower "=" _ _ caseless_equals Hvar) as Hcv.
  pose proof (count_same_lower "=" _ _ caseless_equals Hvalue') as Hcw.
  pose proof (count_nonneg "=" var1) as Hn1.
  pose proof (count_nonneg "=" value1) as Hn2.
  destruct (Z.eq_dec (Py.count "=" var1 + Py.count "=" value1) 0) as [Hnone | Hsome].
  - (* exactly two parts *)
    assert (Hv1 : Py.contains "=" var1 = false) by (apply contains_count; lia).
    assert (Hw1 : Py.contains "=" value1 = false) by (apply contains_count; lia).
    assert (Hv2 : Py.contains "=" var2 = false) by (apply contains_count; lia).
    assert (Hw2 : Py.contains "=" value2 = false) by (apply contains_count; lia).
    unfold parse_opt.
    rewrite (split_option _ _ Hv1 Hw1), (split_option _ _ Hv2 Hw2), Hvar.
    destruct Hvalue as [-> | [Hnum Hlow]].
    + destruct (Py.lower var2 =? "bits")%string.
      { destruct (Py.int value2) as [b |]; cbn; auto.
        destruct (b <=? 0); cbn; auto. }
      destruct (Py.lower var2 =? "numbers")%string.
      { repeat match goal with
               | |- context [if ?c then _ else _] => destruct c
               end; cbn; auto. }
      repeat match goal with
             | |- context [if ?c then _ else _] => destruct c
             end; cbn; auto.
    + rewrite Hvar in Hnum. rewrite Hnum, Hlow.
      change ("numbers" =? "bits")%string with false.
      change ("numbers" =? "numbers")%string with true.
      cbv iota.
      repeat match goal with
             | |- context [if ?c then _ else _] => destruct c
             end; cbn; auto.
  - (* more than two parts: both are rejected *)
    rewrite !parse_opt_many_parts; [exact I | |];
      rewrite split_option_length; lia.
Qed.

(** C10.  Option parsing does not depend on the letter case of the keys,
    nor on that of the value of the [numbers] option: two specs with the
    same fields whose options are case variants of each other, one by one,
    are both rejected or are both accepted with the same object as result
    (as [BITS=16,numbers=NO] and [bits=16,numbers=no]). *)
Theorem option_parsing_ignores_case (self : Protocol) (fields opts1 opts2 : string) :
  Py.contains "?" fields = false ->
  Py.contains "?" opts1 = false ->
  Py.contains "?" opts2 = false ->
  Forall2 case_variant (Py.split "," opts1) (Py.split "," opts2) ->
  same_behaviour
    (parse_spec self (fields +:+ String "?" opts1))
    (parse_spec self (fields +:+ String "?" opts2)).
Proof.
  intros Hf H1 H2 Hall.
  rewrite (parse_spec_options _ _ _ Hf H1), (parse_spec_options _ _ _ Hf H2).
  apply same_behaviour_bind.
  - apply foldM_parse_item_same_behaviour.
  - apply (foldM_same_behaviour case_variant); [exact Hall |].
    intros s x y Hxy. apply parse_opt_case_variant. exact Hxy.
Qed.

Lemma option_parsing_ignores_case_witness :
  same_behaviour
    (parse_spec init ("a:8" +:+ String "?" "BITS=16,numbers=NO"))
    (parse_spec init ("a:8" +:+ String "?" "bits=16,numbers=no")).
Proof.
  apply (option_parsing_ignores_case init "a:8"
           "BITS=16,numbers=NO" "bits=16,numbers=no");
    [reflexivity | reflexivity | reflexivity |].
  constructor; [| constructor; [| constructor]].
  - apply (case_variant_key "BITS" "16" "bits" "16");
      [reflexivity | left; reflexivity].
  - apply (case_variant_key "numbers" "NO" "numbers" "no");
      [reflexivity | right; split; reflexivity].
Defined.

Example bits_upper_case_example :
  new "a:8?BITS=16,numbers=NO" = new "a:8?bits=16,numbers=no"
  /\ is_Ret (new "a:8?BITS=16,numbers=NO") = true.
Proof. split; reflexivity. Qed.

Lemma same_behaviour_Ret r self : same_behaviour (Ret self) r -> r = Ret self.
Proof. destruct r; cbn; [intros ->; reflexivity | contradiction | contradiction]. Qed.




(** ** Field tokens with a bad length *)

Lemma split_spec_fields spec fields opts :
  split_spec spec = Ret (fields, opts) -> fields = fields_of spec.
Proof.
  unfold split_spec, fields_of.
  destruct (Py.contains "?" spec) eqn:Hq.
  - destruct (Py.split "?" spec) as [| f [| o l]]; try discriminate.
    destruct (Py.count "?" spec >? 1); [discriminate |].
    intros [= <- _]. reflexivity.
  - intros [= <- _]. rewrite (split_without _ _ Hq). reflexivity.
Qed.




(** A token that is not of the form [text:bits] gets the field-list message. *)
Lemma parse_item_malformed spec self item :
  length (Py.split ":" item) <> 2%nat ->
  parse_item spec self item = Raise (err_field_list spec).
Proof.
  intros Hlen. unfold parse_item.
  destruct (Py.split ":" item) as [| t [| b [| c l]]]; cbn [length] in Hlen;
    try reflexivity. contradiction.
Qed.




(** ** The cells of the renderer *)




Lemma truncate_fits label bit_length :
  Py.len label <= bit_length * 2 - 1 -> truncate label bit_length = label.
Proof.
  intros Hfit. unfold truncate.
  destruct (Z.gtb_spec (Py.len label) (bit_length * 2 - 1)); [lia | reflexivity].
Qed.

(** The cell of a field in a line of the diagram: on a line that the field
    does not fill, with more fields to come, the renderer appends the
    separator if the line is empty, then the centred text, then the
    separator. *)
Lemma render_step_cell self proto_fields st p f mf :
  proto_fields !! p = Some f -> MF f = Some mf ->
  len f <= bits_per_line self - r_bits_in_line st ->
  r_bits_in_line st + len f <> bits_per_line self ->
  fields_done st + 1 <> Z.of_nat (length proto_fields) ->
  exists st',
    render_step self proto_fields st p = Ret st'
    /\ lines st' = lines st
    /\ current_line st'
       = ((if r_bits_in_line st =? 0
           then current_line st +:+ _get_separator self
           else current_line st)
          +:+ Py.center (truncate (text f) (len f)) (len f * 2 - 1))
         +:+ (if do_unicode self then u_hdr_char_sep else hdr_char_sep self).
Proof.
  intros Hp Hmf Hfit Hfull Hdone. unfold render_step, Py.index.
  rewrite Hp. cbn [bind]. rewrite Hmf. cbn [bind Py.getitem].
  destruct (Z.geb_spec (bits_per_line self - r_bits_in_line st) (len f));
    [| lia].
  destruct (Z.eqb_spec (r_bits_in_line st + len f) (bits_per_line self));
    [contradiction |].
  destruct (Z.eqb_spec (fields_done st + 1) (Z.of_nat (length proto_fields)));
    [contradiction |].
  eexists. split; [reflexivity |]. split; reflexivity.
Qed.




(** ** Rendering twice *)

(** C1 fails on the code.  The layout pass keeps the rest of a field that it
    splits in the dict of [self.field_list] itself, so the object is not the
    same after [__str__]: for [a:20,b:20] the first call draws [b] over two
    lines, and the second call, on the object the first has left, draws an
    unnamed field of 8 bits after [a]. *)
Theorem render_twice_differs :
  exists self self1 self2,
    new "a:20,b:20?numbers=no" = Ret self
    /\ __str__ 42 self = Ret (diagram_a20_b20, self1)
    /\ __str__ 42 self1 = Ret (diagram_a20_b20_again, self2)
    /\ diagram_a20_b20 <> diagram_a20_b20_again
    /\ map len (field_list self) = [20; 20]
    /\ map len (field_list self1) = [20; 8].
Proof.
  do 3 eexists. split; [reflexivity |].
  split; [vm_compute; reflexivity |].
  split; [vm_compute; reflexivity |].
  split; [discriminate |]. split; reflexivity.
Qed.

(** * Further properties of the parser *)

(** A property that the body of a loop keeps holds when the loop returns. *)
Lemma foldM_invariant {A S : Type} (P : S -> Prop) (body : S -> A -> outcome S)
  (l : list A) :
  (forall s x s', P s -> body s x = Ret s' -> P s') ->
  forall s s', P s -> foldM body l s = Ret s' -> P s'.
Proof.
  intros Hbody. induction l as [| x l IH]; intros s s' HP; cbn [foldM].
  - intros [= <-]. exact HP.
  - destruct (body s x) as [s1 | |] eqn:Hx; cbn [bind]; try discriminate.
    apply IH. eapply Hbody; eassumption.
Qed.

(** X1.  A spec with more than one ["?"] is rejected with the message about
    the option separator, whatever its fields and options are. *)
Theorem two_separators_rejected (self : Protocol) (spec : string) :
  1 < Py.count "?" spec -> parse_spec self spec = Raise err_separator.
Proof.
  intros Hcount. unfold parse_spec, split_spec.
  destruct (Py.contains "?" spec) eqn:Hq.
  - pose proof (split_length "?" spec) as Hlen.
    destruct (Py.split "?" spec) as [| f [| o l]]; cbn [length] in Hlen; try lia.
    destruct (Z.gtb_spec (Py.count "?" spec) 1); [reflexivity | lia].
  - apply contains_count in Hq. lia.
Qed.

Lemma two_separators_rejected_witness :
  parse_spec init "a:8?bits=16?numbers=no" = Raise err_separator.
Proof. apply two_separators_rejected. vm_compute. reflexivity. Defined.

(** What an accepted token adds to the object. *)
Lemma parse_item_Ret spec self item self' :
  parse_item spec self item = Ret self' ->
  exists f, token_field item f
            /\ self' = set_field_list (field_list self ++ [f]) self.
Proof.
  unfold parse_item.
  destruct (Py.split ":" item) as [| t [| b [| c l]]] eqn:Hsplit; try discriminate.
  destruct (Py.int b) as [n |] eqn:Hint; [| discriminate].
  destruct (Z.leb_spec n 0); [discriminate |].
  intros [= <-]. exists (new_field t n). split; [| reflexivity].
  exists b. cbn. repeat split; first [assumption | reflexivity | lia].
Qed.

(** The loop over the tokens appends one field for each token, in order,
    and changes nothing else. *)
Lemma parse_items_Ret spec items self self' :
  foldM (parse_item spec) items self = Ret self' ->
  exists fs, Forall2 token_field items fs
             /\ self' = set_field_list (field_list self ++ fs) self.
Proof.
  revert self. induction items as [| item items IH]; intros self; cbn [foldM].
  - intros [= <-]. exists []. split; [constructor |].
    rewrite app_nil_r. destruct self; reflexivity.
  - destruct (parse_item spec self item) as [s1 | |] eqn:Hitem; cbn [bind];
      try discriminate.
    intros Hrest. apply parse_item_Ret in Hitem as (f & Hf & ->).
    apply IH in Hrest as (fs & Hfs & ->). exists (f :: fs).
    split; [constructor; assumption |].
    cbn [field_list set_field_list]. rewrite <- app_assoc. reflexivity.
Qed.

(** An accepted option leaves the fields as they are. *)
Lemma parse_opt_field_list self opt self' :
  parse_opt self opt = Ret self' -> field_list self' = field_list self.
Proof.
  unfold parse_opt.
  destruct (Py.split "=" opt) as [| var [| value [| c l]]]; try discriminate.
  repeat match goal with
         | |- context [if ?c then _ else _] => destruct c
         | |- context [match Py.int ?v with _ => _ end] => destruct (Py.int v)
         end; try discriminate; intros [= <-]; reflexivity.
Qed.

Lemma parse_opts_field_list opts self self' :
  foldM parse_opt opts self = Ret self' -> field_list self' = field_list self.
Proof.
  apply (foldM_invariant (fun s => field_list s = field_list self)).
  - intros s x s' Hs Hx. rewrite (parse_opt_field_list _ _ _ Hx). exact Hs.
  - reflexivity.
Qed.

Lemma parse_spec_fields_tokens (self self' : Protocol) (spec : string) :
  parse_spec self spec = Ret self' ->
  exists fs,
    field_list self' = field_list self ++ fs
    /\ Forall2 token_field (Py.split "," (fields_of spec)) fs.
Proof.
  unfold parse_spec.
  destruct (split_spec spec) as [[fields opts] | |] eqn:Hsplit; try discriminate.
  apply split_spec_fields in Hsplit as ->. cbn [bind].
  destruct (foldM (parse_item spec) (Py.split "," (fields_of spec)) self)
    as [self1 | |] eqn:Hitems; cbn [bind]; try discriminate.
  apply parse_items_Ret in Hitems as (fs & Hfs & ->).
  intros Hopts. exists fs. split; [| exact Hfs].
  destruct opts as [opts |].
  - apply parse_opts_field_list in Hopts. exact Hopts.
  - injection Hopts as <-. reflexivity.
Qed.

(** X3.  When a spec is accepted, the object holds one field for each token
    of the field part, in the order of the tokens: the text is what stands
    before the [":"], the length is the positive number after it, and the
    keys of the layout pass are absent. *)
Theorem parsed_fields_follow_tokens (self self' : Protocol) (spec : string) :
  parse_spec self spec = Ret self' ->
  exists fs,
    field_list self' = field_list self ++ fs
    /\ Forall2 token_field (Py.split "," (fields_of spec)) fs.
Proof. exact (parse_spec_fields_tokens self self' spec). Qed.

Lemma parsed_fields_follow_tokens_witness :
  exists fs,
    field_list spec_a20_b20 = field_list init ++ fs
    /\ Forall2 token_field (Py.split "," (fields_of "a:20,b:20")) fs.
Proof. apply (parsed_fields_follow_tokens init spec_a20_b20 "a:20,b:20"). reflexivity. Defined.

(** An accepted option keeps the line length positive, the border
    characters single and the character set as it is. *)
Lemma parse_opt_keeps_valid self opt self' :
  parse_opt self opt = Ret self' ->
  0 < bits_per_line self /\ single_glyphs self /\ do_unicode self = false ->
  0 < bits_per_line self' /\ single_glyphs self' /\ do_unicode self' = false.
Proof.
  unfold parse_opt, single_glyphs.
  destruct (Py.split "=" opt) as [| var [| value [| c l]]]; try discriminate.
  intros Hopt (Hbpl & (Hs & He & Ho & Hv & Hp) & Hu).
  destruct (Py.lower var =? "bits")%string.
  { destruct (Py.int value) as [b |]; [| discriminate].
    destruct (Z.leb_spec b 0); [discriminate |]. injection Hopt as <-.
    cbn. repeat split; assumption. }
  destruct (Py.lower var =? "numbers")%string.
  { repeat match type of Hopt with
           | context [if ?c then _ else _] => destruct c
           end; try discriminate; injection Hopt as <-;
      cbn; repeat split; assumption. }
  destruct (Py.mem (Py.lower var) _).
  - destruct (Z.gtb_spec (Py.len value) 1); [discriminate |].
    destruct (Z.leb_spec (Py.len value) 0); [discriminate |].
    assert (Hone : Py.len value = 1) by lia.
    cbn [orb] in Hopt.
    repeat match type of Hopt with
           | context [if ?c then _ else _] => destruct c
           end; injection Hopt as <-; cbn; repeat split; assumption.
  - injection Hopt as <-. repeat split; assumption.
Qed.

Lemma new_valid (spec : string) (self : Protocol) :
  new spec = Ret self ->
  0 < bits_per_line self
  /\ field_list self <> []
  /\ positive_lengths (field_list self)
  /\ single_glyphs self
  /\ do_unicode self = false.
Proof.
  intros Hnew. unfold new in Hnew.
  destruct (parse_spec_fields_tokens _ _ _ Hnew) as (fs & Hfs & Htok).
  cbn [field_list init app] in Hfs.
  assert (Hvalid : 0 < bits_per_line self /\ single_glyphs self
                   /\ do_unicode self = false).
  { unfold parse_spec in Hnew.
    destruct (split_spec spec) as [[fields opts] | |]; try discriminate.
    cbn [bind] in Hnew.
    destruct (foldM (parse_item spec) (Py.split "," fields) init)
      as [self1 | |] eqn:Hitems; cbn [bind] in Hnew; try discriminate.
    apply parse_items_Ret in Hitems as (fs1 & _ & ->).
    assert (H1 : 0 < bits_per_line (set_field_list (field_list init ++ fs1) init)
                 /\ single_glyphs (set_field_list (field_list init ++ fs1) init)
                 /\ do_unicode (set_field_list (field_list init ++ fs1) init) = false)
      by (cbn; unfold single_glyphs; cbn; repeat split; reflexivity).
    destruct opts as [opts |]; [| injection Hnew as <-; exact H1].
    eapply (foldM_invariant
              (fun s => 0 < bits_per_line s /\ single_glyphs s
                        /\ do_unicode s = false)); [| exact H1 | exact Hnew].
    intros s x s' Hs Hx. eapply parse_opt_keeps_valid; eassumption. }
  destruct Hvalid as (Hbpl & Hglyphs & Hu).
  split; [exact Hbpl |]. rewrite Hfs.
  split; [| split; [| split; assumption]].
  - pose proof (split_nonempty "," (fields_of spec)) as Hne.
    destruct Htok; [contradiction | discriminate].
  - clear -Htok. induction Htok as [| item f items fs Hf _ IH]; constructor.
    + destruct Hf as (bits & _ & _ & Hpos & _). exact Hpos.
    + exact IH.
Qed.

(** X2.  The object of an accepted spec is fit for the layout pass and the
    renderer: the line length is positive, there is at least one field,
    every field has a positive length, the five characters of the ASCII
    borders are one character each, and the ASCII character set is
    selected. *)
Theorem parsed_object_valid (spec : string) (self : Protocol) :
  new spec = Ret self ->
  0 < bits_per_line self
  /\ field_list self <> []
  /\ positive_lengths (field_list self)
  /\ single_glyphs self
  /\ do_unicode self = false.
Proof. exact (new_valid spec self). Qed.

Lemma parsed_object_valid_witness :
  0 < bits_per_line spec_a20_b20
  /\ field_list spec_a20_b20 <> []
  /\ positive_lengths (field_list spec_a20_b20)
  /\ single_glyphs spec_a20_b20
  /\ do_unicode spec_a20_b20 = false.
Proof. apply (parsed_object_valid "a:20,b:20"). reflexivity. Defined.

(** X4.  The options of a spec do not reach its fields: when a spec with
    options is accepted, the field part alone is accepted as well, and both
    objects hold the same fields. *)
Theorem options_keep_fields (self self' : Protocol) (fields opts : string) :
  Py.contains "?" fields = false ->
  Py.contains "?" opts = false ->
  parse_spec self (fields +:+ String "?" opts) = Ret self' ->
  exists self0,
    parse_spec self fields = Ret self0
    /\ field_list self' = field_list self0.
Proof.
  intros Hf Ho. rewrite (parse_spec_options _ _ _ Hf Ho), (parse_spec_plain _ _ Hf).
  pose proof (foldM_parse_item_same_behaviour
                (fields +:+ String "?" opts) fields (Py.split "," fields) self)
    as Hsame.
  destruct (foldM (parse_item (fields +:+ String "?" opts))
              (Py.split "," fields) self) as [self1 | |]; cbn [bind];
    try discriminate.
  apply same_behaviour_Ret in Hsame. intros Hopts.
  exists self1. split; [exact Hsame |].
  apply parse_opts_field_list in Hopts. exact Hopts.
Qed.

Lemma options_keep_fields_witness :
  exists self0,
    parse_spec init "a:20,b:20" = Ret self0
    /\ field_list (set_bits_per_line 16 (set_do_print_top false spec_a20_b20))
       = field_list self0.
Proof.
  apply (options_keep_fields init
           (set_bits_per_line 16 (set_do_print_top false spec_a20_b20))
           "a:20,b:20" "numbers=no,bits=16"); reflexivity.
Defined.

(** An option with a key that is not known is accepted and does nothing. *)
Lemma parse_opt_unknown self var value :
  Py.mem (Py.lower var) known_keys = false ->
  Py.contains "=" var = false -> Py.contains "=" value = false ->
  parse_opt self (var +:+ String "=" value) = Ret self.
Proof.
  intros Hmem Hv Hw. unfold parse_opt. rewrite (split_option _ _ Hv Hw).
  unfold Py.mem, known_keys in Hmem. cbn [existsb] in Hmem.
  repeat (apply orb_false_iff in Hmem as [? Hmem]).
  unfold Py.mem. cbn [existsb].
  repeat match goal with
         | H : (_ =? _)%string = false |- _ => rewrite H; clear H
         end.
  reflexivity.
Qed.

(** X5.  Options with unknown keys are ignored: an accepted spec with
    options is accepted with the same object when an option [var=value]
    whose key is none of the known keys, in any letter case, is added at
    the end. *)
Theorem unknown_option_ignored (self self' : Protocol)
  (fields opts var value : string) :
  Py.contains "?" fields = false ->
  Py.contains "?" opts = false ->
  parse_spec self (fields +:+ String "?" opts) = Ret self' ->
  Py.mem (Py.lower var) known_keys = false ->
  Py.contains "=" (var +:+ value) = false ->
  Py.contains "," (var +:+ value) = false ->
  Py.contains "?" (var +:+ value) = false ->
  parse_spec self
    (fields +:+ String "?" (opts +:+ String "," (var +:+ String "=" value)))
  = Ret self'.
Proof.
  intros Hf Ho Hparse Hkey Heq Hcomma Hq.
  rewrite contains_app in Heq, Hcomma, Hq.
  apply orb_false_iff in Heq as [Hv Hw].
  apply orb_false_iff in Hcomma as [Hcv Hcw].
  apply orb_false_iff in Hq as [Hqv Hqw].
  assert (Ho' : Py.contains "?"
                  (opts +:+ String "," (var +:+ String "=" value)) = false).
  { rewrite contains_app. cbn [Py.contains]. rewrite contains_app.
    cbn [Py.contains]. rewrite Ho, Hqv, Hqw. reflexivity. }
  assert (Hc' : Py.contains "," (var +:+ String "=" value) = false).
  { rewrite contains_app. cbn [Py.contains]. rewrite Hcv, Hcw. reflexivity. }
  rewrite (parse_spec_options _ _ _ Hf Ho) in Hparse.
  rewrite (parse_spec_options _ _ _ Hf Ho').
  pose proof (foldM_parse_item_same_behaviour
                (fields +:+ String "?" opts)
                (fields +:+ String "?"
                   (opts +:+ String "," (var +:+ String "=" value)))
                (Py.split "," fields) self) as Hsame.
  destruct (foldM (parse_item (fields +:+ String "?" opts))
              (Py.split "," fields) self) as [self1 | |]; cbn [bind] in Hparse;
    try discriminate.
  apply same_behaviour_Ret in Hsame. rewrite Hsame. cbn [bind].
  rewrite split_app, (split_without _ _ Hc'), foldM_app, Hparse.
  cbn [bind foldM]. rewrite (parse_opt_unknown _ _ _ Hkey Hv Hw). reflexivity.
Qed.

Lemma unknown_option_ignored_witness :
  parse_spec init
    ("a:8" +:+ String "?" ("bits=16" +:+ String "," ("Colour" +:+ String "=" "red")))
  = Ret (set_bits_per_line 16 (set_field_list [new_field "a" 8] init)).
Proof.
  apply (unknown_option_ignored init
           (set_bits_per_line 16 (set_field_list [new_field "a" 8] init))
           "a:8" "bits=16" "Colour" "red"); reflexivity.
Defined.

(** * Further properties of the layout pass *)

Lemma tiles_app bits_per_line pos l1 mid l2 pos' :
  tiles bits_per_line pos l1 mid -> tiles bits_per_line mid l2 pos' ->
  tiles bits_per_line pos (l1 ++ l2) pos'.
Proof.
  intros H1 H2. induction H1 as [pos | c ln f mf l mid' | ln f l mid'];
    cbn [app].
  - exact H2.
  - eapply tiles_keep; eauto.
  - eapply tiles_block; eauto.
Qed.

(** Every field of a tiling has its place, from line [ln] on. *)
Lemma tiles_has_place bits_per_line c ln l pos' :
  tiles bits_per_line (c, ln) l pos' -> 0 < bits_per_line -> 1 <= ln ->
  Forall (has_place bits_per_line) l.
Proof.
  intros Htiles Hbpl. remember (c, ln) as pos eqn:Hpos.
  revert c ln Hpos.
  induction Htiles as [pos | c0 ln0 f mf l pos' Hmf Hline Hstart Hend Hc Hlen Hfit Hmore _ IH
                      | ln0 f l pos' Hmf Hline Hstart Hend Hlong Hmod _ IH];
    intros c ln Hpos Hln.
  - constructor.
  - injection Hpos as -> ->. constructor.
    + exists c, (c + len f - 1), ln. repeat split; first [assumption | lia].
    + destruct (c + len f =? bits_per_line);
        eapply IH; first [reflexivity | lia].
  - injection Hpos as <- ->. constructor.
    + exists 0, (bits_per_line - 1), ln. repeat split; first [assumption | lia].
    + eapply IH; first [reflexivity | lia].
Qed.

Section LayoutTiles.

Variable bits_per_line : Z.
Hypothesis bits_per_line_pos : 0 < bits_per_line.

(** Every turn appends the next tile. *)
Lemma layout_step_tiles st f st' :
  tiles_invariant bits_per_line st -> fields st !! i st = Some f ->
  layout_step bits_per_line st f = Ret st' ->
  tiles_invariant bits_per_line st'.
Proof.
  intros (Hvalid & Htiles & Hmore) Hi Hst.
  assert (Hvalid' : layout_valid bits_per_line st').
  { destruct (layout_step_valid _ bits_per_line_pos _ _ Hvalid Hi)
      as (st1 & Hst1 & Hv1 & _).
    congruence. }
  assert (Hlen : 0 < len f).
  { destruct Hvalid as (_ & Hpos).
    rewrite (drop_S _ _ _ Hi) in Hpos. apply Forall_cons in Hpos. tauto. }
  assert (Hlt : (i st < length (fields st))%nat)
    by (eapply lookup_lt_Some; exact Hi).
  destruct Hvalid as ((Hb0 & Hb1) & _).
  split; [exact Hvalid' |].
  apply layout_step_inv in Hst.
  destruct Hst as [[Hfit ->] | [(Hlong & Hzero & _ & Hmod & ->) | (Hlong & _ & ->)]].
  - (* the field is kept *)
    split.
    + eapply tiles_app; [exact Htiles |].
      unfold keep_field.
      cbn [bits_in_line text_line len set_MF set_line set_start set_end].
      eapply (tiles_keep _ _ _ _ false);
        cbn [len MF line start end_ set_MF set_line set_start set_end];
        try reflexivity; try lia; try discriminate.
      destruct (bits_in_line st + len f =? bits_per_line); constructor.
    + intros l r Hnew Hr. cbn [new_fields keep_field] in Hnew.
      apply app_inj_tail in Hnew as [_ <-]. cbn in Hr. discriminate Hr.
  - (* a block *)
    split.
    + eapply tiles_app; [exact Htiles |].
      unfold block_field. cbn [bits_in_line text_line]. rewrite Hzero.
      eapply tiles_block;
        cbn [len MF line start end_ set_MF set_line set_start set_end];
        try reflexivity; try lia; try exact Hmod.
      constructor.
    + intros l r Hnew Hr. cbn [new_fields block_field] in Hnew.
      apply app_inj_tail in Hnew as [_ <-]. cbn in Hr. discriminate Hr.
  - (* a split *)
    split.
    + eapply tiles_app; [exact Htiles |].
      unfold split_field. cbn [bits_in_line text_line len set_MF].
      eapply (tiles_keep _ _ _ _ true); cbn [len MF line start end_];
        try reflexivity; try lia; try (f_equal; lia).
      replace (bits_in_line st + (bits_per_line - bits_in_line st)
               =? bits_per_line) with true by (symmetry; apply Z.eqb_eq; lia).
      constructor.
    + intros l r _ _. cbn [fields i split_field].
      rewrite list_lookup_insert_eq by exact Hlt. eexists. reflexivity.
Qed.

Lemma tiles_invariant_init self :
  positive_lengths (field_list self) ->
  tiles_invariant bits_per_line (layout_init self).
Proof.
  intros Hpos. split; [apply layout_init_valid; assumption |].
  split; [constructor |].
  intros l r Hnew. cbn in Hnew. destruct l; discriminate.
Qed.

End LayoutTiles.

Lemma layout_tiling (self : Protocol) (fuel : nat) :
  0 < bits_per_line self ->
  positive_lengths (field_list self) ->
  (layout_fuel (field_list self) <= fuel)%nat ->
  exists placed self' pos,
    _process_field_list fuel self = Ret (placed, self')
    /\ tiles (bits_per_line self) (0, 1) placed pos
    /\ 0 <= fst pos < bits_per_line self
    /\ ends_whole placed
    /\ Forall (has_place (bits_per_line self)) placed.
Proof.
  intros Hbpl Hpos Hfuel.
  destruct (layout_loop_total (bits_per_line self) Hbpl fuel (layout_init self))
    as [st' Hrun].
  { apply layout_init_valid; assumption. }
  { exact Hfuel. }
  destruct (layout_loop_invariant (bits_per_line self)
              (tiles_invariant (bits_per_line self))
              (fun st f st1 => layout_step_tiles _ Hbpl st f st1)
              fuel _ _ (tiles_invariant_init _ Hbpl self Hpos) Hrun)
    as [(Hvalid & Htiles & Hmore) Hend].
  exists (new_fields st'), (set_field_list (fields st') self),
    (bits_in_line st', text_line st').
  unfold _process_field_list. rewrite Hrun. cbn [bind].
  split; [reflexivity |]. split; [exact Htiles |].
  split; [exact (proj1 Hvalid) |]. split.
  - intros l r Hnew Hr. destruct (Hmore l r Hnew Hr) as [x Hx]. congruence.
  - eapply tiles_has_place; [exact Htiles | exact Hbpl | lia].
Qed.

(** X6.  The placed fields tile the lines: the first one starts at bit 0 of
    line 1; each one starts where the one before it stopped, or at bit 0 of
    the next line when that one closed its line; a field that is not a
    block ends at [start + len - 1], within the line; a fragment marked as
    having more fragments ends on the last bit of its line and is never
    the last placed field; a block is recorded from bit 0 to bit
    [bits_per_line - 1] and has a line of its own. *)
Theorem layout_tiles_lines (self : Protocol) (fuel : nat) :
  0 < bits_per_line self ->
  positive_lengths (field_list self) ->
  (layout_fuel (field_list self) <= fuel)%nat ->
  exists placed self' pos,
    _process_field_list fuel self = Ret (placed, self')
    /\ tiles (bits_per_line self) (0, 1) placed pos
    /\ 0 <= fst pos < bits_per_line self
    /\ ends_whole placed
    /\ Forall (has_place (bits_per_line self)) placed.
Proof. exact (layout_tiling self fuel). Qed.

Lemma layout_tiles_lines_witness :
  exists placed self' pos,
    _process_field_list 42 spec_a20_b20 = Ret (placed, self')
    /\ tiles 32 (0, 1) placed pos
    /\ 0 <= fst pos < 32
    /\ ends_whole placed
    /\ Forall (has_place 32) placed.
Proof.
  apply (layout_tiles_lines spec_a20_b20 42).
  - reflexivity.
  - repeat constructor.
  - vm_compute. lia.
Defined.

(** ** The dicts of the object after the pass *)

Lemma filter_whole_snoc l r :
  List.filter is_whole (l ++ [r])
  = List.filter is_whole l ++ (if is_whole r then [r] else []).
Proof. rewrite List.filter_app. reflexivity. Qed.

(** Every turn keeps: the fields the loop has left behind are the placed
    fields that are not marked as having more fragments. *)
Lemma layout_step_whole bits_per_line st f st' :
  take (i st) (fields st) = List.filter is_whole (new_fields st) ->
  fields st !! i st = Some f ->
  layout_step bits_per_line st f = Ret st' ->
  take (i st') (fields st') = List.filter is_whole (new_fields st')
  /\ length (fields st') = length (fields st).
Proof.
  intros Htake Hi Hst.
  assert (Hlt : (i st < length (fields st))%nat)
    by (eapply lookup_lt_Some; exact Hi).
  apply layout_step_inv in Hst.
  destruct Hst as [[_ ->] | [(_ & _ & _ & _ & ->) | (_ & _ & ->)]];
    unfold keep_field, block_field, split_field;
    cbn [i fields new_fields]; rewrite length_insert;
    (split; [| reflexivity]); rewrite filter_whole_snoc, <- Htake.
  - erewrite take_S_r by (apply list_lookup_insert_eq; exact Hlt).
    rewrite take_insert_ge by lia. reflexivity.
  - erewrite take_S_r by (apply list_lookup_insert_eq; exact Hlt).
    rewrite take_insert_ge by lia. reflexivity.
  - rewrite take_insert_ge by lia. cbn. rewrite app_nil_r. reflexivity.
Qed.

Lemma layout_object_after (self self' : Protocol) (fuel : nat)
  (placed : list field) :
  _process_field_list fuel self = Ret (placed, self') ->
  field_list self' = List.filter is_whole placed
  /\ length (field_list self') = length (field_list self)
  /\ self' = set_field_list (field_list self') self.
Proof.
  unfold _process_field_list.
  destruct (layout_loop fuel (bits_per_line self) (layout_init self))
    as [st' | |] eqn:Hrun; cbn [bind]; try discriminate.
  intros [= <- <-].
  destruct (layout_loop_invariant (bits_per_line self)
              (fun st => take (i st) (fields st)
                         = List.filter is_whole (new_fields st)
                         /\ length (fields st) = length (field_list self)))
    with (fuel := fuel) (st := layout_init self) (st' := st')
    as [[Htake Hlen] Hend].
  - intros st f st1 [Ht Hl] Hi Hst.
    destruct (layout_step_whole _ _ _ _ Ht Hi Hst) as [Ht1 Hl1].
    split; [exact Ht1 | congruence].
  - split; reflexivity.
  - exact Hrun.
  - cbn [field_list set_field_list]. rewrite <- Htake.
    apply lookup_ge_None_1 in Hend.
    rewrite take_ge by exact Hend. repeat split. exact Hlen.
Qed.

(** X7.  Whenever the layout pass returns, the dicts it leaves in
    [self.field_list] are the placed fields not marked as having more
    fragments, in order: a field that was split is left as its last
    fragment, with the length and the text of that fragment.  The list
    keeps its number of fields. *)
Theorem layout_leaves_last_fragments (self self' : Protocol) (fuel : nat)
  (placed : list field) :
  _process_field_list fuel self = Ret (placed, self') ->
  field_list self' = List.filter is_whole placed
  /\ length (field_list self') = length (field_list self)
  /\ self' = set_field_list (field_list self') self.
Proof. exact (layout_object_after self self' fuel placed). Qed.

Lemma layout_leaves_last_fragments_witness :
  [placed_a; placed_b_rest]
  = List.filter is_whole [placed_a; placed_b_here; placed_b_rest]
  /\ length [placed_a; placed_b_rest] = length (field_list spec_a20_b20)
  /\ set_field_list [placed_a; placed_b_rest] spec_a20_b20
     = set_field_list
         (field_list (set_field_list [placed_a; placed_b_rest] spec_a20_b20))
         spec_a20_b20.
Proof.
  apply (layout_leaves_last_fragments spec_a20_b20
           (set_field_list [placed_a; placed_b_rest] spec_a20_b20) 42
           [placed_a; placed_b_here; placed_b_rest]).
  reflexivity.
Defined.

(** ** Where the text of a field goes *)

Section LayoutWeights.

Variable bpl : Z.

(** A number read off the text and the length of a field, which a split
    shares out between the two parts. *)
Variable g : string -> Z -> Z.
Hypothesis g_split :
  forall (t : string) (L a : Z) (here : bool),
    g t L = g (if here then t else "") a + g (if here then "" else t) (L - a).

Let w (f : field) : Z := g (text f) (len f).

Let pending (st : layout) (k : nat) : Z :=
  if (i st <=? k)%nat then
    match fields st !! k with
    | Some f => w f
    | None => 0
    end
  else 0.

Lemma layout_step_weights st f st1 :
  fields st !! i st = Some f ->
  layout_step bpl st f = Ret st1 ->
  exists r,
    new_fields st1 = new_fields st ++ [r]
    /\ forall k,
        pending st k = (if (i st =? k)%nat then w r else 0) + pending st1 k.
Proof.
  intros Hi Hst.
  assert (Hlt : (i st < length (fields st))%nat)
    by (eapply lookup_lt_Some; exact Hi).
  apply layout_step_inv in Hst.
  destruct Hst as [[_ ->] | [(_ & _ & _ & _ & ->) | (_ & _ & ->)]];
    (eexists; split; [reflexivity |]); intros k; unfold pending, w;
    cbn [i fields keep_field block_field split_field len text
           set_MF set_line set_start set_end set_len set_text];
    destruct (Nat.eqb_spec (i st) k) as [<- | Hne].
  - rewrite Nat.leb_refl, Hi.
    replace (S (i st) <=? i st)%nat with false
      by (symmetry; apply Nat.leb_gt; lia).
    lia.
  - rewrite list_lookup_insert_ne by exact Hne.
    destruct (Nat.leb_spec (i st) k), (Nat.leb_spec (S (i st)) k);
      try lia; reflexivity.
  - rewrite Nat.leb_refl, Hi.
    replace (S (i st) <=? i st)%nat with false
      by (symmetry; apply Nat.leb_gt; lia).
    lia.
  - rewrite list_lookup_insert_ne by exact Hne.
    destruct (Nat.leb_spec (i st) k), (Nat.leb_spec (S (i st)) k);
      try lia; reflexivity.
  - rewrite Nat.leb_refl, Hi.
    rewrite list_lookup_insert_eq by exact Hlt.
    cbn [len text set_MF set_len set_text].
    apply g_split.
  - rewrite list_lookup_insert_ne by exact Hne. lia.
Qed.

Lemma layout_loop_weights fuel st st' :
  layout_loop fuel bpl st = Ret st' ->
  exists added,
    new_fields st' = new_fields st ++ added
    /\ forall k,
        total_of w (fragments_of k (layout_origins fuel bpl st) added)
        = pending st k.
Proof.
  revert st. induction fuel as [| fuel IH]; intros st Hrun.
  - cbn [layout_loop] in Hrun.
    destruct (fields st !! i st) eqn:Hi; [discriminate |].
    injection Hrun as <-. exists []. rewrite app_nil_r.
    rewrite (layout_origins_done _ _ _ Hi). split; [reflexivity |]. intros k.
    unfold pending. cbn.
    destruct (Nat.leb_spec (i st) k); [| reflexivity].
    rewrite (lookup_ge_None_2 (fields st) k); [reflexivity |].
    apply lookup_ge_None_1 in Hi. lia.
  - destruct (fields st !! i st) as [f |] eqn:Hi.
    + rewrite (layout_loop_turn _ _ _ _ Hi) in Hrun.
      destruct (layout_step bpl st f) as [st1 | |] eqn:Hst;
        try discriminate.
      cbn [bind] in Hrun.
      destruct (IH _ Hrun) as (added & Hnew & Hsum).
      destruct (layout_step_weights _ _ _ Hi Hst) as (r & Hr & Hpend).
      exists (r :: added).
      rewrite (layout_origins_turn _ _ _ _ _ Hi Hst). split.
      * rewrite Hnew, Hr, <- app_assoc. reflexivity.
      * intros k. rewrite Hpend. cbn [fragments_of].
        destruct (i st =? k)%nat; cbn [total_of fold_right];
          fold (total_of w (fragments_of k
                  (layout_origins fuel bpl st1) added));
          rewrite Hsum; lia.
    + rewrite (layout_loop_done _ _ _ Hi) in Hrun. injection Hrun as <-.
      exists []. rewrite app_nil_r.
      rewrite (layout_origins_done _ _ _ Hi). split; [reflexivity |]. intros k.
      unfold pending. cbn.
      destruct (Nat.leb_spec (i st) k); [| reflexivity].
      rewrite (lookup_ge_None_2 (fields st) k); [reflexivity |].
      apply lookup_ge_None_1 in Hi. lia.
Qed.

(** For the whole pass: the numbers of the placed fields that come from
    field [k] add up to the number of field [k]. *)
Lemma layout_weights self fuel placed self' k f :
  bpl = bits_per_line self ->
  _process_field_list fuel self = Ret (placed, self') ->
  field_list self !! k = Some f ->
  total_of w
    (fragments_of k (layout_origins fuel bpl (layout_init self)) placed)
  = w f.
Proof.
  intros Hbpl. unfold _process_field_list. rewrite <- Hbpl.
  destruct (layout_loop fuel bpl (layout_init self))
    as [st' | |] eqn:Hrun; cbn [bind]; try discriminate.
  intros [= <- <-] Hk.
  destruct (layout_loop_weights _ _ _ Hrun) as (added & Hnew & Hsum).
  cbn [new_fields layout_init app] in Hnew. rewrite Hnew, Hsum.
  unfold pending. cbn [i fields layout_init]. rewrite Hk. reflexivity.
Qed.

End LayoutWeights.

Lemma total_of_zero (w : field -> Z) (l : list field) :
  (forall r, 0 <= w r) -> total_of w l = 0 -> Forall (fun r => w r = 0) l.
Proof.
  intros Hnonneg. unfold total_of.
  assert (Hsum : forall l', 0 <= fold_right (fun f acc => w f + acc) 0 l').
  { induction l' as [| r l' IH]; cbn [fold_right]; [lia |].
    specialize (Hnonneg r). lia. }
  induction l as [| r l IH]; cbn [fold_right]; intros Hzero; constructor.
  - specialize (Hnonneg r). specialize (Hsum l). lia.
  - apply IH. specialize (Hnonneg r). specialize (Hsum l). lia.
Qed.

(** X8.  Whenever the layout pass returns, the text of a field is on
    exactly one of the placed fields that come from it when the field has a
    text, and on none when it has none; every other placed field that
    comes from it has the empty text. *)
Theorem layout_places_text_once (self self' : Protocol) (fuel : nat)
  (placed : list field) (k : nat) (f : field) :
  _process_field_list fuel self = Ret (placed, self') ->
  field_list self !! k = Some f ->
  let frs :=
    fragments_of k
      (layout_origins fuel (bits_per_line self) (layout_init self)) placed in
  Forall (fun r => text r = "" \/ text r = text f) frs
  /\ total_of labelled frs = labelled f.
Proof.
  intros Hrun Hk frs. split.
  - pose proof (layout_weights (bits_per_line self)
                  (fun t _ => if (t =? "")%string || (t =? text f)%string
                              then 0 else 1)) as Hw.
    cbv zeta in Hw.
    specialize (Hw (fun t L a here => ltac:(
      destruct here, (t =? "")%string, (t =? text f)%string;
      cbn; try rewrite String.eqb_refl; reflexivity))).
    specialize (Hw self fuel placed self' k f eq_refl Hrun Hk).
    change (total_of (foreign (text f)) frs = foreign (text f) f) in Hw.
    unfold foreign at 2 in Hw. rewrite String.eqb_refl, orb_true_r in Hw.
    apply total_of_zero in Hw.
    + eapply Forall_impl; [exact Hw |]. intros r Hr. unfold foreign in Hr.
      destruct (String.eqb_spec (text r) ""); [left; assumption |].
      destruct (String.eqb_spec (text r) (text f)); [right; assumption |].
      discriminate Hr.
    + intros r. unfold foreign.
      destruct ((text r =? "")%string || (text r =? text f)%string); lia.
  - pose proof (layout_weights (bits_per_line self)
                  (fun t _ => if (t =? "")%string then 0 else 1)) as Hw.
    cbv zeta in Hw.
    specialize (Hw (fun t L a here => ltac:(
      destruct here, (t =? "")%string; reflexivity))).
    exact (Hw self fuel placed self' k f eq_refl Hrun Hk).
Qed.

Lemma layout_places_text_once_witness :
  let frs :=
    fragments_of 1 (layout_origins 42 32 (layout_init spec_a20_b20))
      [placed_a; placed_b_here; placed_b_rest] in
  Forall (fun r => text r = "" \/ text r = "b") frs
  /\ total_of labelled frs = labelled (new_field "b" 20).
Proof.
  apply (layout_places_text_once spec_a20_b20
           (set_field_list [placed_a; placed_b_rest] spec_a20_b20) 42
           [placed_a; placed_b_here; placed_b_rest] 1 (new_field "b" 20));
    reflexivity.
Defined.

(** * Further properties of the renderer *)

(** ** The borders never raise *)








(** ** The renderer never raises on what the layout pass gives it *)

Section RenderTotal.

Variable self : Protocol.
Variable proto_fields : list field.
Hypothesis bits_per_line_pos : 0 < bits_per_line self.
Hypothesis placed_fields : Forall (has_place (bits_per_line self)) proto_fields.






End RenderTotal.






(** ** Rendering again when no field was split *)

(** A turn of the layout loop reads the text and the length of the field
    and nothing else of it. *)
Lemma layout_step_alike bits_per_line st1 st2 f1 f2 st1' :
  layout_alike st1 st2 -> same_spec f1 f2 ->
  layout_step bits_per_line st1 f1 = Ret st1' ->
  exists st2',
    layout_step bits_per_line st2 f2 = Ret st2' /\ layout_alike st1' st2'.
Proof.
  intros (Hfields & Hnew & Hbits & Hi & Hline) [Htext Hlen] Hst.
  assert (Hins : forall g1 g2, same_spec g1 g2 ->
            Forall2 same_spec (<[i st1 := g1]> (fields st1))
              (<[i st2 := g2]> (fields st2))).
  { intros g1 g2 Hg. rewrite <- Hi. apply Forall2_insert; assumption. }
  unfold layout_step, aligned_multiple in Hst |- *.
  cbn [len text set_MF] in Hst |- *.
  destruct (bits_per_line - bits_in_line st1 >=? len f1) eqn:Hfit.
  - injection Hst as <-. eexists. split.
    { rewrite <- Hbits, <- Hlen, ?Hfit. reflexivity. }
    unfold keep_field, layout_alike.
    cbn [fields new_fields bits_in_line i text_line len text
           set_MF set_line set_start set_end].
    rewrite <- ?Hnew, <- ?Hbits, <- ?Hline, <- ?Htext, <- ?Hlen.
    repeat split;
      first [ exact Hi | f_equal; exact Hi
            | apply Hins; split; cbn; congruence
            | unfold set_end, set_start, set_line, set_MF;
              cbn [text len MF line start end_];
              rewrite <- ?Htext, <- ?Hlen; reflexivity ].
  - destruct (bits_in_line st1 =? 0) eqn:Hzero.
    + destruct (bits_per_line =? 0) eqn:Hbpl; [discriminate |].
      cbn [bind] in Hst.
      destruct (len f1 mod bits_per_line =? 0) eqn:Hmod; injection Hst as <-.
      * eexists. split.
        { rewrite <- Hbits, <- Hlen, ?Hfit, ?Hzero, ?Hbpl. cbn [bind].
          rewrite ?Hmod. reflexivity. }
        unfold block_field, layout_alike.
        cbn [fields new_fields bits_in_line i text_line len text
               set_MF set_line set_start set_end].
        rewrite <- ?Hnew, <- ?Hbits, <- ?Hline, <- ?Htext, <- ?Hlen.
        repeat split;
      first [ exact Hi | f_equal; exact Hi
            | apply Hins; split; cbn; congruence
            | unfold set_end, set_start, set_line, set_MF;
              cbn [text len MF line start end_];
              rewrite <- ?Htext, <- ?Hlen; reflexivity ].
      * eexists. split.
        { rewrite <- Hbits, <- Hlen, ?Hfit, ?Hzero, ?Hbpl. cbn [bind].
          rewrite ?Hmod. reflexivity. }
        unfold split_field, layout_alike.
        cbn [fields new_fields bits_in_line i text_line len text
               set_MF set_line set_start set_end set_len set_text].
        rewrite <- ?Hnew, <- ?Hbits, <- ?Hline, <- ?Htext, <- ?Hlen.
        repeat split;
      first [ exact Hi | f_equal; exact Hi
            | apply Hins; split; cbn; congruence
            | unfold set_end, set_start, set_line, set_MF;
              cbn [text len MF line start end_];
              rewrite <- ?Htext, <- ?Hlen; reflexivity ].
    + cbn [bind] in Hst. injection Hst as <-. eexists. split.
      { rewrite <- Hbits, <- Hlen, ?Hfit, ?Hzero. reflexivity. }
      unfold split_field, layout_alike.
      cbn [fields new_fields bits_in_line i text_line len text
             set_MF set_line set_start set_end set_len set_text].
      rewrite <- ?Hnew, <- ?Hbits, <- ?Hline, <- ?Htext, <- ?Hlen.
      repeat split;
      first [ exact Hi | f_equal; exact Hi
            | apply Hins; split; cbn; congruence
            | unfold set_end, set_start, set_line, set_MF;
              cbn [text len MF line start end_];
              rewrite <- ?Htext, <- ?Hlen; reflexivity ].
Qed.

Lemma layout_loop_alike bits_per_line fuel st1 st2 st1' :
  layout_alike st1 st2 ->
  layout_loop fuel bits_per_line st1 = Ret st1' ->
  exists st2',
    layout_loop fuel bits_per_line st2 = Ret st2' /\ layout_alike st1' st2'.
Proof.
  revert st1 st2. induction fuel as [| fuel IH]; intros st1 st2 Halike Hrun.
  - cbn [layout_loop] in Hrun.
    destruct (fields st1 !! i st1) eqn:H1; [discriminate |].
    injection Hrun as <-. exists st2. split; [| exact Halike].
    apply layout_loop_done.
    destruct Halike as (Hfields & _ & _ & Hi & _).
    apply lookup_ge_None_2. apply lookup_ge_None_1 in H1.
    rewrite <- (Forall2_length _ _ _ Hfields), <- Hi. exact H1.
  - destruct (fields st1 !! i st1) as [f1 |] eqn:H1.
    + rewrite (layout_loop_turn _ _ _ _ H1) in Hrun.
      destruct (layout_step bits_per_line st1 f1) as [s1 | |] eqn:Hst;
        try discriminate.
      cbn [bind] in Hrun.
      pose proof Halike as (Hfields & _ & _ & Hi & _).
      destruct (Forall2_lookup_l _ _ _ _ _ Hfields H1) as (f2 & H2 & Hf).
      rewrite Hi in H2.
      destruct (layout_step_alike _ _ _ _ _ _ Halike Hf Hst)
        as (s2 & Hst2 & Halike').
      rewrite (layout_loop_turn _ _ _ _ H2), Hst2. cbn [bind].
      eapply IH; eassumption.
    + rewrite (layout_loop_done _ _ _ H1) in Hrun. injection Hrun as <-.
      exists st2. split; [| exact Halike].
      apply layout_loop_done.
      destruct Halike as (Hfields & _ & _ & Hi & _).
      apply lookup_ge_None_2. apply lookup_ge_None_1 in H1.
      rewrite <- (Forall2_length _ _ _ Hfields), <- Hi. exact H1.
Qed.

(** As long as no placed field is marked as having more fragments, the
    fields of the object have the text and the length they had. *)
Lemma layout_step_unsplit bits_per_line fields0 st f st' :
  (Forall (fun r => is_whole r = true) (new_fields st) ->
   Forall2 same_spec (fields st) fields0) ->
  fields st !! i st = Some f ->
  layout_step bits_per_line st f = Ret st' ->
  Forall (fun r => is_whole r = true) (new_fields st') ->
  Forall2 same_spec (fields st') fields0.
Proof.
  intros Hinv Hi Hst Hwhole.
  apply layout_step_inv in Hst.
  destruct Hst as [[_ ->] | [(_ & _ & _ & _ & ->) | (_ & _ & ->)]];
    cbn [new_fields fields keep_field block_field split_field] in Hwhole |- *;
    apply Forall_app in Hwhole as [Hbefore Hlast];
    apply Forall_cons in Hlast as [Hlast _].
  - specialize (Hinv Hbefore).
    destruct (Forall2_lookup_l _ _ _ _ _ Hinv Hi) as (f0 & H0 & Hf0).
    rewrite <- (list_insert_id _ _ _ H0).
    apply Forall2_insert; [exact Hinv | exact Hf0].
  - specialize (Hinv Hbefore).
    destruct (Forall2_lookup_l _ _ _ _ _ Hinv Hi) as (f0 & H0 & Hf0).
    rewrite <- (list_insert_id _ _ _ H0).
    apply Forall2_insert; [exact Hinv | exact Hf0].
  - discriminate Hlast.
Qed.

Lemma same_spec_refl l : Forall2 same_spec l l.
Proof. induction l; constructor; [split; reflexivity | assumption]. Qed.

Lemma same_spec_flip l k : Forall2 same_spec l k -> Forall2 same_spec k l.
Proof.
  induction 1 as [| x y l k [Ht Hl] _ IH]; constructor; [split; congruence | exact IH].
Qed.

(** X12.  When the layout pass has split no field, the object it leaves is
    a fixed point of rendering: [__str__] on that object gives the same
    diagram again and leaves the object as it is. *)
Theorem unsplit_render_is_repeatable (self self1 : Protocol) (fuel : nat)
  (placed : list field) (diagram : string) :
  _process_field_list fuel self = Ret (placed, self1) ->
  Forall (fun r => is_whole r = true) placed ->
  __str__ fuel self = Ret (diagram, self1) ->
  _process_field_list fuel self1 = Ret (placed, self1)
  /\ __str__ fuel self1 = Ret (diagram, self1).
Proof.
  intros Hpass Hwhole Hstr.
  assert (Hagain : _process_field_list fuel self1 = Ret (placed, self1)).
  { pose proof (layout_object_after _ _ _ _ Hpass) as (Hfl & _ & Hself1).
    unfold _process_field_list in Hpass |- *.
    destruct (layout_loop fuel (bits_per_line self) (layout_init self))
      as [st' | |] eqn:Hrun; cbn [bind] in Hpass; try discriminate.
    injection Hpass as Hplaced Hs1.
    destruct (layout_loop_invariant (bits_per_line self)
                (fun st => Forall (fun r => is_whole r = true) (new_fields st) ->
                           Forall2 same_spec (fields st) (field_list self))
                (fun st f st1 H Hi Hst =>
                   layout_step_unsplit _ _ st f st1 H Hi Hst)
                fuel (layout_init self) st'
                (fun _ => same_spec_refl (field_list self))
                Hrun) as [Hsame _].
    rewrite Hplaced in Hsame. specialize (Hsame Hwhole).
    assert (Halike : layout_alike (layout_init self) (layout_init self1)).
    { unfold layout_alike, layout_init. cbn [fields new_fields bits_in_line i text_line].
      repeat split. rewrite <- Hs1. cbn [field_list set_field_list].
      apply same_spec_flip. exact Hsame. }
    destruct (layout_loop_alike _ _ _ _ _ Halike Hrun)
      as (st2 & Hrun2 & (_ & Hnew2 & _)).
    assert (Hbpl : bits_per_line self1 = bits_per_line self)
      by (rewrite <- Hs1; reflexivity).
    rewrite Hbpl, Hrun2. cbn [bind].
    assert (Hpass2 : _process_field_list fuel self1
                     = Ret (new_fields st2, set_field_list (fields st2) self1)).
    { unfold _process_field_list. rewrite Hbpl, Hrun2. reflexivity. }
    pose proof (layout_object_after _ _ _ _ Hpass2) as (Hfl2 & _ & _).
    cbn [field_list set_field_list] in Hfl2.
    rewrite <- Hnew2, Hplaced in Hfl2 |- *. rewrite Hfl2, <- Hfl.
    f_equal. f_equal. rewrite Hself1 at 2. rewrite <- Hs1. reflexivity. }
  split; [exact Hagain |].
  unfold __str__ in Hstr |- *. rewrite Hpass in Hstr. rewrite Hagain.
  exact Hstr.
Qed.

Lemma unsplit_render_is_repeatable_witness :
  _process_field_list 42
    (set_field_list [placed_a; mkField "" 8 (Some false) (Some 1) (Some 20) (Some 27)]
       spec_a20_b20)
  = Ret ([placed_a; mkField "" 8 (Some false) (Some 1) (Some 20) (Some 27)],
         set_field_list
           [placed_a; mkField "" 8 (Some false) (Some 1) (Some 20) (Some 27)]
           spec_a20_b20)
  /\ exists diagram,
      __str__ 42
        (set_field_list
           [placed_a; mkField "" 8 (Some false) (Some 1) (Some 20) (Some 27)]
           spec_a20_b20)
      = Ret (diagram,
             set_field_list
               [placed_a; mkField "" 8 (Some false) (Some 1) (Some 20) (Some 27)]
               spec_a20_b20).
Proof.
  assert (H := fun diagram =>
    unsplit_render_is_repeatable
      (set_field_list [placed_a; placed_b_rest] spec_a20_b20)
      (set_field_list
         [placed_a; mkField "" 8 (Some false) (Some 1) (Some 20) (Some 27)]
         spec_a20_b20)
      42 [placed_a; mkField "" 8 (Some false) (Some 1) (Some 20) (Some 27)]
      diagram eq_refl ltac:(repeat constructor)).
  split.
  - exact (proj1 (H _ ltac:(vm_compute; reflexivity))).
  - eexists. exact (proj2 (H _ ltac:(vm_compute; reflexivity))).
Defined.

(** ** Widths *)

Lemma len_append a b : Py.len (a +:+ b) = Py.len a + Py.len b.
Proof.
  unfold Py.len. induction a as [| c a IH]; cbn [String.append String.length].
  - lia.
  - lia.
Qed.

Lemma len_nonneg s : 0 <= Py.len s.
Proof. unfold Py.len. lia. Qed.

Lemma len_repeat_nat s k :
  Py.len (Py.repeat_nat s k) = Py.len s * Z.of_nat k.
Proof.
  induction k as [| k IH]; cbn [Py.repeat_nat].
  - change (Py.len "") with 0. lia.
  - rewrite len_append, IH. lia.
Qed.

Lemma len_mul s n : Py.len (Py.mul s n) = Py.len s * Z.max 0 n.
Proof.
  unfold Py.mul. rewrite len_repeat_nat.
  replace (Z.of_nat (Z.to_nat n)) with (Z.max 0 n) by lia. reflexivity.
Qed.

Lemma length_substring_0 n s :
  String.length (String.substring 0 n s) = Nat.min n (String.length s).
Proof.
  revert s. induction n as [| n IH]; intros [| c s]; cbn; try reflexivity.
  rewrite IH. reflexivity.
Qed.

Lemma substring_0_twice m n s :
  String.substring 0 m (String.substring 0 n s)
  = String.substring 0 (Nat.min m n) s.
Proof.
  revert n s. induction m as [| m IH]; intros [| n] [| c s]; cbn;
    try reflexivity.
  rewrite IH. reflexivity.
Qed.

Lemma truncate_cases (label : string) (bit_length : Z) :
  1 <= bit_length ->
  let width := bit_length * 2 - 1 in
  (Py.len label <= width -> truncate label bit_length = label)
  /\ (width < Py.len label ->
      Py.len (truncate label bit_length) = width
      /\ (bit_length = 1 ->
          truncate label bit_length = String.substring 0 1 label)
      /\ (1 < bit_length ->
          truncate label bit_length
          = String.substring 0 (Z.to_nat (width - 1)) label +:+ ".")).
Proof.
  intros Hn width. split; [apply truncate_fits |].
  assert (Hwdef : bit_length * 2 - 1 = width) by reflexivity. clearbody width.
  intros Hlong. unfold truncate. rewrite Hwdef.
  destruct (Z.gtb_spec (Py.len label) width) as [_ | ?]; [| lia].
  assert (Hcut : Py.len (Py.slice0 label width) = width).
  { unfold Py.slice0, Py.len in *. destruct (Z.ltb_spec width 0); [lia |].
    rewrite length_substring_0. lia. }
  rewrite Hcut.
  assert (Hslice : Py.slice0 label width
                   = String.substring 0 (Z.to_nat width) label).
  { unfold Py.slice0. destruct (Z.ltb_spec width 0); [lia | reflexivity]. }
  destruct (Z.gtb_spec width 1) as [Hwide | Hone].
  - assert (Hdrop : Py.slice0 (Py.slice0 label width) (-1)
                    = String.substring 0 (Z.to_nat (width - 1)) label).
    { unfold Py.slice0 at 1. cbn [Z.ltb Z.compare]. rewrite Hcut, Hslice.
      rewrite substring_0_twice. f_equal. lia. }
    rewrite Hdrop. split; [| split; [intros; lia | reflexivity]].
    rewrite len_append. unfold Py.len at 1. rewrite length_substring_0.
    unfold Py.len in Hlong. change (Py.len ".") with 1. lia.
  - assert (Hw : width = 1) by lia.
    split; [exact Hcut |]. split; [| intros; lia].
    intros _. rewrite Hslice, Hw. reflexivity.
Qed.

(** X13.  A text longer than its cell of [2 * bit_length - 1] characters is
    cut: in a cell of one character the first character is kept; in a wider
    cell the first [2 * bit_length - 2] characters are kept and a dot is
    put after them, so that the text fills the cell.  A text that fits is
    left as it is. *)
Theorem truncate_cuts_to_cell (label : string) (bit_length : Z) :
  1 <= bit_length ->
  let width := bit_length * 2 - 1 in
  (Py.len label <= width -> truncate label bit_length = label)
  /\ (width < Py.len label ->
      Py.len (truncate label bit_length) = width
      /\ (bit_length = 1 ->
          truncate label bit_length = String.substring 0 1 label)
      /\ (1 < bit_length ->
          truncate label bit_length
          = String.substring 0 (Z.to_nat (width - 1)) label +:+ ".")).
Proof. exact (truncate_cases label bit_length). Qed.

Lemma truncate_cuts_to_cell_witness :
  let width := 2 * 2 - 1 in
  (Py.len "checksum" <= width -> truncate "checksum" 2 = "checksum")
  /\ (width < Py.len "checksum" ->
      Py.len (truncate "checksum" 2) = width
      /\ (2 = 1 -> truncate "checksum" 2 = String.substring 0 1 "checksum")
      /\ (1 < 2 ->
          truncate "checksum" 2
          = String.substring 0 (Z.to_nat (width - 1)) "checksum" +:+ ".")).
Proof. apply (truncate_cuts_to_cell "checksum" 2). lia. Defined.






Lemma border_width_ascii (self : Protocol) (width : option Z) (textline : Z)
  (fields : list field) (bottom : bool) (offset : Z) :
  do_unicode self = false -> single_glyphs self ->
  exists s,
    _get_horizontal self width textline fields bottom offset = Ret s
    /\ match width with
       | Some w => if w <=? 0 then s = "" else Py.len s = 2 * w + 1
       | None =>
           1 <= bits_per_line self -> Py.len s = 2 * bits_per_line self + 1
       end.
Proof.
  intros Hu (Hs & He & Ho & Hv & _). unfold _get_horizontal. rewrite Hu.
  assert (Hlen : forall w, 1 <= w ->
            Py.len (hdr_char_start self
                    +:+ Py.mul (hdr_char_fill_even self +:+ hdr_char_fill_odd self)
                          (w - 1)
                    +:+ hdr_char_fill_even self +:+ hdr_char_end self)
            = 2 * w + 1).
  { intros w Hw. rewrite !len_append, len_mul, len_append, Hs, He, Ho, Hv. lia. }
  destruct width as [w |].
  - destruct (Z.leb_spec w 0); eexists; (split; [reflexivity |]).
    + reflexivity.
    + cbn [bind]. apply Hlen. lia.
  - eexists. split; [reflexivity |]. intros Hbpl. cbn [bind]. apply Hlen.
    exact Hbpl.
Qed.

(** X15.  In the ASCII character set, with border characters of one
    character each, a border over [w >= 1] bits is [2 * w + 1] characters
    long: the start character, [w - 1] pairs of fill characters, an even
    fill character and the end character.  A width that is given and not
    positive gives the empty string. *)
Theorem ascii_border_width (self : Protocol) (width : option Z) (textline : Z)
  (fields : list field) (bottom : bool) (offset : Z) :
  do_unicode self = false -> single_glyphs self ->
  exists s,
    _get_horizontal self width textline fields bottom offset = Ret s
    /\ match width with
       | Some w => if w <=? 0 then s = "" else Py.len s = 2 * w + 1
       | None =>
           1 <= bits_per_line self -> Py.len s = 2 * bits_per_line self + 1
       end.
Proof. exact (border_width_ascii self width textline fields bottom offset). Qed.

Lemma ascii_border_width_witness :
  exists s,
    _get_horizontal spec_a20_b20 (Some 8) 2 [] true 0 = Ret s
    /\ (if 8 <=? 0 then s = "" else Py.len s = 2 * 8 + 1).
Proof.
  apply (ascii_border_width spec_a20_b20 (Some 8) 2 [] true 0);
    [reflexivity | repeat split; reflexivity].
Defined.

(** ** The ruler *)

Lemma str_digit d : 0 <= d < 10 -> Py.len (Py.str d) = 1.
Proof.
  intros Hd.
  assert (H : d = 0 \/ d = 1 \/ d = 2 \/ d = 3 \/ d = 4 \/ d = 5 \/ d = 6
              \/ d = 7 \/ d = 8 \/ d = 9) by lia.
  destruct H as [-> | [-> | [-> | [-> | [-> | [-> | [-> | [-> | [-> | ->]]]]]]]]];
    reflexivity.
Qed.

Lemma units_line_len l acc :
  Py.len (fold_left (fun acc i => acc +:+ " " +:+ Py.str (i mod 8)) l acc)
  = Py.len acc + 2 * Z.of_nat (length l).
Proof.
  revert acc. induction l as [| i l IH]; intros acc; cbn [fold_left length].
  - lia.
  - rewrite IH, !len_append, str_digit.
    + change (Py.len " ") with 1. lia.
    + pose proof (Z.mod_pos_bound i 8 ltac:(lia)). lia.
Qed.

Lemma range_length n : Z.of_nat (length (Py.range n)) = Z.max 0 n.
Proof. unfold Py.range. rewrite length_map, length_seq. lia. Qed.

(** With the tens row on, the ruler is not empty. *)
Lemma tens_line_len tens units :
  0 < Py.len ((" " +:+ tens +:+ String "010" "") +:+ units).
Proof.
  rewrite !len_append. change (Py.len " ") with 1.
  pose proof (len_nonneg tens). pose proof (len_nonneg units).
  pose proof (len_nonneg (String "010" "")). lia.
Qed.

(** X16.  For a positive line length [_get_top_numbers] gives no ruler
    exactly when both ruler rows are switched off.  With the tens row off
    and the units row on, the ruler is the one row of units, two
    characters for every bit of the line. *)
Theorem ruler_shown_unless_off (self : Protocol) :
  0 < bits_per_line self ->
  (_get_top_numbers self = None
   <-> do_print_top_tens self = false /\ do_print_top_units self = false)
  /\ (do_print_top_tens self = false -> do_print_top_units self = true ->
      exists r, _get_top_numbers self = Some r
                /\ Py.len r = 2 * bits_per_line self).
Proof.
  intros Hbpl. unfold _get_top_numbers.
  destruct (do_print_top_tens self), (do_print_top_units self).
  - split; [| discriminate].
    match goal with
    | |- context [Py.len ?r >? 0] =>
        destruct (Z.gtb_spec (Py.len r) 0) as [_ | Hneg]
    end.
    + split; [discriminate | intros [H _]; discriminate H].
    + exfalso. revert Hneg. apply Z.lt_nge, tens_line_len.
  - split; [| discriminate].
    match goal with
    | |- context [Py.len ?r >? 0] =>
        destruct (Z.gtb_spec (Py.len r) 0) as [_ | Hneg]
    end.
    + split; [discriminate | intros [H _]; discriminate H].
    + exfalso. revert Hneg. apply Z.lt_nge, tens_line_len.
  - cbn [String.append].
    pose proof (units_line_len (Py.range (bits_per_line self)) "") as Hlen.
    rewrite range_length in Hlen. change (Py.len "") with 0 in Hlen.
    cbn [String.append] in Hlen.
    match goal with
    | |- context [Py.len ?r >? 0] =>
        destruct (Z.gtb_spec (Py.len r) 0) as [_ | Hneg]; [| lia]
    end.
    split; [split; [discriminate | intros [_ H]; discriminate H] |].
    intros _ _. eexists. split; [reflexivity | lia].
  - split; [| discriminate]. cbn. split; intros _; [split |]; reflexivity.
Qed.

Lemma ruler_shown_unless_off_witness :
  (_get_top_numbers (set_do_print_top false spec_a20_b20) = None
   <-> false = false /\ false = false)
  /\ (false = false -> false = true ->
      exists r, _get_top_numbers (set_do_print_top false spec_a20_b20) = Some r
                /\ Py.len r = 2 * 32).
Proof.
  apply (ruler_shown_unless_off (set_do_print_top false spec_a20_b20)).
  reflexivity.
Defined.

(** ** The diagram is a rectangle *)


Section RenderWidths.

Variable self : Protocol.
Variable proto_fields : list field.
Hypothesis bits_per_line_pos : 0 < bits_per_line self.
Hypothesis placed_positive : Forall (fun f => 0 < len f) proto_fields.
Hypothesis ascii : do_unicode self = false.
Hypothesis glyphs : single_glyphs self.











End RenderWidths.





(** The text of a block is cut to the length of the field, not to the
    line: a longer one makes the line of the text wider than the rest. *)
Lemma long_block_text_overflows :
  exists self diagram self',
    new "abcdefgh:4?bits=2" = Ret self
    /\ ~ long_texts_fit (bits_per_line self) (field_list self)
    /\ __str__ 42 self = Ret (diagram, self')
    /\ map Py.len (Py.split "010" diagram) = [17; 4; 5; 5; 9; 5; 5].
Proof.
  eexists. eexists. eexists. split; [reflexivity |].
  split; [| split; [vm_compute; reflexivity | vm_compute; reflexivity]].
  intros H. inversion H as [| f l Hf _]; subst.
  vm_compute in Hf. apply Hf; reflexivity.
Qed.
